(** * Tensorforce core: networks, optimizers, parameters, policies

    A shallow embedding of
      - tensorforce/core/parameters/ornstein_uhlenbeck.py
      - tensorforce/core/policies/parametrized_distributions.py
      - tensorforce/core/networks/auto.py
      - tensorforce/core/optimizers/subsampling_step.py
      - tensorforce/core/optimizers/evolutionary.py
    and the properties of these modules stated in the specification.

    Conventions.  Python exceptions are values of [error], a function that
    may raise returns a [result].  Random draws are passed in as the
    realization that the run observes.  Floating-point numbers are exact
    rationals; where the source divides, the IEEE special values are kept
    (see [Evolutionary.tfloat]); where a float is converted to an integer,
    the range of int64 is kept (see [to_int64]); and the sample count of
    [SubsamplingStep], which the rounding of a product decides, is computed
    in single precision (see [Float32]).  The definitions come first, one
    module per source file; the properties follow. *)

From Stdlib Require Import ZArith QArith Qabs Qround Qcanon List String Bool Lia.
From Stdlib Require Import DecimalString.
From Stdlib Require SpecFloat.
Import ListNotations.

Set Warnings "-register-all".

Local Open Scope Z_scope.

(** ** Python values and exceptions *)

(** The Python objects that appear as fields of an exception and as values
    of a layer descriptor. *)
Inductive pyobj : Type :=
| PyBool (b : bool)
| PyInt (z : Z)
| PyStr (s : string)
| PyTuple (items : list pyobj).

(** The exceptions the five modules raise.  [TensorforceError_value] is
    [TensorforceError.value(name=, argument=, value=, condition=, hint=)]. *)
Inductive error : Type :=
| TensorforceError_value
    (name argument : string) (value : pyobj) (condition hint : option string)
| KeyError (key : string)
| UnboundLocalError (variable : string)
| InvalidArgumentError (op : string).

Inductive result (A : Type) : Type :=
| Ok (a : A)
| Raise (e : error).
Arguments Ok {A} a.
Arguments Raise {A} e.

Definition bind {A B : Type} (r : result A) (k : A -> result B) : result B :=
  match r with
  | Ok a => k a
  | Raise e => Raise e
  end.

Notation "x <- r ;; k" := (bind r (fun x => k))
  (at level 61, r at next level, right associativity).

(** [range(n)] for a Python int [n]: empty when [n <= 0]. *)
Definition range (n : Z) : list Z :=
  map Z.of_nat (seq 0 (Z.to_nat n)).

(** [range(start, limit)]. *)
Definition range_from (start limit : Z) : list Z :=
  map (fun i => start + Z.of_nat i) (seq 0 (Z.to_nat (limit - start))).

(** [str(n)] for a non-negative Python int. *)
Definition str (n : Z) : string :=
  NilZero.string_of_uint (N.to_uint (Z.to_N n)).

(** Conversion of a float to an integer type ([int(x)], [tf.cast]) drops the
    fractional part: it rounds toward zero. *)
Definition Qtruncate (q : Q) : Z :=
  Z.quot (Qnum q) (Zpos (Qden q)).

(** The integer type of the graph is int64. *)
Definition int64_min : Z := - 2 ^ 63.
Definition int64_max : Z := 2 ^ 63 - 1.

(** [tf.cast] of a float, given by its value, to int64: the fractional part
    is dropped, and a value outside the range of int64 gives the smallest
    int64 (what the conversion instruction of the processor returns). *)
Definition to_int64 (q : Q) : Z :=
  let z := Qtruncate q in
  if (int64_min <=? z) && (z <=? int64_max) then z else int64_min.

(** The float type of the graph is float32: IEEE 754 single precision,
    24 bits of mantissa, rounding to nearest with ties to even. *)
Module Float32.

Definition prec : Z := 24.
Definition emax : Z := 128.

Definition t : Type := SpecFloat.spec_float.

(** The number a float stands for; [None] for an infinity and for NaN. *)
Definition value (x : t) : option Q :=
  match x with
  | SpecFloat.S754_zero _ => Some 0%Q
  | SpecFloat.S754_finite s m e =>
      let n := if s then Zneg m else Zpos m in
      Some match e with
           | Zneg k => n # (2 ^ k)%positive
           | _ => inject_Z (n * 2 ^ e)
           end
  | _ => None
  end.

(** [x * y] on two float32 tensors. *)
Definition mul : t -> t -> t := SpecFloat.SFmul prec emax.

(** [tf.cast] of an int64 to float32: the nearest float. *)
Definition of_int (n : Z) : t :=
  SpecFloat.binary_normalize prec emax n 0 false.

(** [tf.cast] of a float32 to int64; an infinity and NaN are outside the
    range of int64. *)
Definition to_int (x : t) : Z :=
  match value x with
  | Some q => to_int64 q
  | None => int64_min
  end.

(** [x <= y]; false when either side is NaN. *)
Definition leb : t -> t -> bool := SpecFloat.SFleb.

(** The floats [0.0] and [1.0]. *)
Definition zero : t := SpecFloat.S754_zero false.
Definition one : t := SpecFloat.S754_finite false 8388608 (-23).

(** A float that is not below zero: its sign bit is clear, or it is a
    zero or NaN. *)
Definition sign_clear (x : t) : Prop :=
  match x with
  | SpecFloat.S754_finite s _ _ => s = false
  | SpecFloat.S754_infinity s => s = false
  | _ => True
  end.

End Float32.

(** [[f(a, b) for a, b in zip(xs, ys)]]: stops at the shorter list. *)
Fixpoint zip_with {A B C : Type} (f : A -> B -> C) (xs : list A) (ys : list B)
  : list C :=
  match xs, ys with
  | x :: xs', y :: ys' => f x y :: zip_with f xs' ys'
  | _, _ => []
  end.

(** Modelled from the spec: [TensorSpec] (tensorforce.core.utils) is not
    among the sources; it is the InputSpec of the data model, with
    [spec.type] one of bool, int and float, [spec.shape] a tuple of ints and
    [spec.rank] derived as the length of the shape. *)
Inductive spec_type : Type := type_bool | type_int | type_float.

Record TensorSpec : Type := {
  type : spec_type;
  shape : list Z
}.

Definition rank (spec : TensorSpec) : Z := Z.of_nat (List.length (shape spec)).

(** ** tensorforce/core/parameters/ornstein_uhlenbeck.py *)

Module OrnsteinUhlenbeck.

(** [self.spec.type] of a parameter (its declared numeric type), and the
    Python numbers of that type. *)
Inductive dtype : Type := Float | Int.

Inductive number : Type :=
| NFloat (q : Q)
| NInt (z : Z).

(** Modelled from the spec: [self.spec.py_type()] ([TensorSpec] is not
    among the sources) is the Python type of the declared numeric type, so
    [self.spec.py_type()(x)] is [float(x)] or [int(x)]. *)
Definition py_type (d : dtype) (x : Q) : number :=
  match d with
  | Float => NFloat x
  | Int => NInt (Qtruncate x)
  end.

(** Modelled from the spec: [tf_util.cast(x=parameter,
    dtype=self.spec.type)] (tensorforce.core.tf_util is not among the
    sources) casts the value to the declared numeric type: the float
    variable as it is, or converted to int64 with [tf.cast]. *)
Definition cast (x : Q) (d : dtype) : number :=
  match d with
  | Float => NFloat x
  | Int => NInt (to_int64 x)
  end.

Record t : Type := {
  theta : Q;
  sigma : Q;
  mu : Q;
  absolute : bool;
  spec_type : dtype
}.

Section Methods.

(** The base class [Parameter] is not among the sources: what its
    [min_value()] returns is a parameter, [None] standing for Python's
    [None]. *)
Variable Parameter_min_value : option number.

(** [min_value]: the [else] branch calls the base method and drops what it
    returns (there is no [return]), so the method returns [None]. *)
Definition min_value (self : t) : option number :=
  if absolute self then
    Some (py_type (spec_type self) 0)
  else
    let _ := Parameter_min_value in
    None.

End Methods.


(** [parameter_value]: one value request.  [process] is the persistent
    variable, [normal] the draw of [tf.random.normal(shape=())].  Returns the
    new content of the variable and the value handed to the caller. *)
Definition parameter_value (self : t) (process normal : Q) : Q * number :=
  let delta := (theta self * (mu self - process) + sigma self * normal)%Q in
  let parameter :=
    if absolute self then Qabs (process + delta)%Q
    else (process + delta)%Q in
  (parameter, cast parameter (spec_type self)).

(** A sequence of value requests: the trace of (variable content, returned
    value) pairs, one per draw. *)
Fixpoint requests (self : t) (process : Q) (normals : list Q)
  : list (Q * number) :=
  match normals with
  | [] => []
  | z :: rest =>
      let step := parameter_value self process z in
      step :: requests self (fst step) rest
  end.

(** The variable is created with [initializer=self.mu]. *)
Definition run (self : t) (normals : list Q) : list (Q * number) :=
  requests self (mu self) normals.

Definition nonneg (x : number) : Prop :=
  match x with
  | NFloat q => (0 <= q)%Q
  | NInt z => 0 <= z
  end.


(** The order of two numbers of the same type. *)
Definition number_le (x y : number) : Prop :=
  match x, y with
  | NFloat a, NFloat b => (a <= b)%Q
  | NInt a, NInt b => a <= b
  | _, _ => False
  end.

(** [(1 - theta) ** k], the factor by which [k] requests without noise
    shrink the distance of the process to [mu]. *)
Fixpoint decay (self : t) (k : nat) : Q :=
  match k with
  | O => 1%Q
  | S k' => ((1 - theta self) * decay self k')%Q
  end.

End OrnsteinUhlenbeck.

(** ** tensorforce/core/policies/parametrized_distributions.py *)

Module ParametrizedDistributions.

Section Policy.

(** The network, the distributions and the tensors they exchange are
    collaborators outside the sources: their types and methods are
    parameters. *)
Variables inputs embedding conditions parameters values : Type.

(** [self.network.apply(x=states, horizons=horizons, internals=internals,
    return_internals=False)]. *)
Variable network_apply : inputs -> embedding.

(** [TensorDict()], the default of [auxiliaries.get]. *)
Variable no_conditions : conditions.

Record distribution : Type := {
  parametrize : embedding -> conditions -> parameters;
  all_action_values : parameters -> values
}.

Record t : Type := {
  actions_spec : list (string * TensorSpec);
  distributions : list (string * distribution)
}.

(** [spec.type in ('bool', 'int')]. *)
Definition type_in_bool_int (ty : spec_type) : bool :=
  match ty with
  | type_bool | type_int => true
  | type_float => false
  end.

(** [auxiliaries.get(name, default=TensorDict())]. *)
Fixpoint get (auxiliaries : list (string * conditions)) (name : string)
  : conditions :=
  match auxiliaries with
  | [] => no_conditions
  | (key, value) :: rest =>
      if String.eqb key name then value else get rest name
  end.

(** What [function(name, distribution)] computes for one action, given the
    shared embedding. *)
Definition action_function (emb : embedding)
  (auxiliaries : list (string * conditions))
  (name : string) (d : distribution) : values :=
  let conds := get auxiliaries name in
  let params := parametrize d emb conds in
  all_action_values d params.

(** Modelled from the spec: [self.distributions.fmap(function=function,
    cls=TensorDict, with_names=True)] ([ModuleDict] is not among the
    sources) fans the function out across all action distributions, each
    result stored under the name of its action. *)
Definition fmap (f : string -> distribution -> values)
  (ds : list (string * distribution)) : list (string * values) :=
  map (fun entry => (fst entry, f (fst entry) (snd entry))) ds.

Definition all_actions_values (self : t) (x : inputs)
  (auxiliaries : list (string * conditions))
  : result (list (string * values)) :=
  if negb (forallb (fun entry => type_in_bool_int (type (snd entry)))
                   (actions_spec self))
  then
    Raise (TensorforceError_value
             "ParametrizedDistributions" "infer_state_value"
             (PyStr "action-values") (Some "action types not bool/int"%string)
             None)
  else
    let emb := network_apply x in
    Ok (fmap (action_function emb auxiliaries) (distributions self)).

End Policy.

Arguments parametrize {embedding conditions parameters values}.
Arguments all_action_values {embedding conditions parameters values}.
Arguments actions_spec {embedding conditions parameters values}.
Arguments distributions {embedding conditions parameters values}.
Arguments get {conditions}.
Arguments all_actions_values {inputs embedding conditions parameters values}.

(** *** The constructor and [states_value] *)

(** The exceptions of the constructor and of [states_value]:
    [TensorforceError.type(name=, argument=, dtype=)],
    [TensorforceError.invalid(name=, argument=)], the [AttributeError] of a
    missing attribute or method, and a failed [assert]. *)
Inductive exception : Type :=
| TensorforceError_type (name argument dtype : string)
| TensorforceError_invalid (name argument : string)
| AttributeError (attribute : string)
| AssertionError.

Inductive outcome (A : Type) : Type :=
| Done (a : A)
| Failed (e : exception).
Arguments Done {A} a.
Arguments Failed {A} e.

Definition and_then {A B : Type} (r : outcome A) (k : A -> outcome B)
  : outcome B :=
  match r with
  | Done a => k a
  | Failed e => Failed e
  end.

(** The type of a specification as the string the source compares. *)
Definition type_name (ty : spec_type) : string :=
  match ty with
  | type_bool => "bool"
  | type_int => "int"
  | type_float => "float"
  end.

(** Modelled from the spec: the fields of an action specification that the
    constructor reads ([TensorSpec] is not among the sources): [spec.type],
    [spec.num_values] (for int actions) and the optional bound
    [spec.min_value]. *)
Record ActionSpec : Type := {
  action_type : spec_type;
  num_values : option Z;
  action_min_value : option Q
}.

(** An entry of the [distributions] argument, and the [module] resolved for
    an action: the name of a module (a [str]) or a [dict] of arguments. *)
Inductive module_spec : Type :=
| ModuleName (name : string)
| ModuleArgs (args : list (string * pyobj)).

(** [d.get(key)] / [d[key]] after [key in d]. *)
Fixpoint dict_get {V : Type} (d : list (string * V)) (key : string)
  : option V :=
  match d with
  | [] => None
  | (k, v) :: rest => if String.eqb k key then Some v else dict_get rest key
  end.

(** [d[key] = value]: an existing key keeps its position. *)
Fixpoint dict_set (d : list (string * pyobj)) (key : string) (value : pyobj)
  : list (string * pyobj) :=
  match d with
  | [] => [(key, value)]
  | (k, v) :: rest =>
      if String.eqb k key then (k, value) :: rest
      else (k, v) :: dict_set rest key value
  end.

(** [d.update(other)]. *)
Definition dict_update (d other : list (string * pyobj))
  : list (string * pyobj) :=
  fold_left (fun acc item => dict_set acc (fst item) (snd item)) other d.

(** The first [if]/[elif] chain of the loop: the default distribution of an
    action, with the [assert] on [num_values]. *)
Definition default_module (spec : ActionSpec) : outcome string :=
  match action_type spec with
  | type_bool => Done "bernoulli"%string
  | type_int =>
      match num_values spec with
      | Some _ => Done "categorical"%string
      | None => Failed AssertionError
      end
  | type_float =>
      match action_min_value spec with
      | None => Done "gaussian"%string
      | Some _ => Done "beta"%string
      end
  end.

(** One [if key in distributions] block: a [str] entry replaces the
    module, a [dict] entry is merged with [module.update], which a [str]
    does not have. *)
Definition apply_entry (module : module_spec) (entry : option module_spec)
  : outcome module_spec :=
  match entry with
  | None => Done module
  | Some (ModuleName name) => Done (ModuleName name)
  | Some (ModuleArgs args) =>
      match module with
      | ModuleArgs current => Done (ModuleArgs (dict_update current args))
      | ModuleName _ => Failed (AttributeError "update")
      end
  end.

(** The [module] passed to [add_module] for one action: [None] without a
    [distributions] argument, else the entry of the action's type overlaid
    with the entry of its name. *)
Definition resolve_module
  (distributions : option (list (string * module_spec)))
  (name : string) (spec : ActionSpec) : outcome (option module_spec) :=
  match distributions with
  | None => Done None
  | Some entries =>
      and_then
        (apply_entry (ModuleArgs [])
           (dict_get entries (type_name (action_type spec))))
        (fun module =>
           and_then (apply_entry module (dict_get entries name))
                    (fun module => Done (Some module)))
  end.

(** The arguments of one [self.add_module(name=(name + '_distribution'),
    module=module, modules=distribution_modules,
    default_module=default_module, action_spec=spec, ...)]. *)
Record distribution_module : Type := {
  module_name : string;
  module : option module_spec;
  default : string;
  action_spec : ActionSpec
}.

(** The loop over [self.actions_spec.items()]. *)
Fixpoint add_distributions
  (distributions : option (list (string * module_spec)))
  (actions : list (string * ActionSpec))
  : outcome (list (string * distribution_module)) :=
  match actions with
  | [] => Done []
  | (name, spec) :: rest =>
      and_then (default_module spec) (fun default_name =>
      and_then (resolve_module distributions name spec) (fun resolved =>
      and_then (add_distributions distributions rest) (fun others =>
      Done ((name,
             {| module_name := (name ++ "_distribution")%string;
                module := resolved;
                default := default_name;
                action_spec := spec |}) :: others))))
  end.

(** [infer_state_value in (False, 'action-values', 'distribution')]. *)
Inductive state_value_mode : Type :=
| infer_False
| infer_action_values
| infer_distribution.

(** The attributes that the constructor sets: [self.distributions],
    [self.infer_state_value] and, only without inference, [self.value]
    (the name of the value module). *)
Record policy : Type := {
  policy_distributions : list (string * distribution_module);
  infer_state_value : state_value_mode;
  value : option string
}.

(** [__init__], from the check of the network output on; [output_type] is
    [self.network.output_spec().type]. *)
Definition __init__ (output_type : spec_type)
  (distributions : option (list (string * module_spec)))
  (infer : state_value_mode) (actions : list (string * ActionSpec))
  : outcome policy :=
  match output_type with
  | type_float =>
      and_then (add_distributions distributions actions) (fun modules =>
      Done {| policy_distributions := modules;
              infer_state_value := infer;
              value := match infer with
                       | infer_False => Some "states_value"%string
                       | _ => None
                       end |})
  | _ =>
      Failed (TensorforceError_type "ParametrizedDistributions"
                "network output" (type_name output_type))
  end.

Section StatesValue.

Variables inputs embedding values : Type.
Variable network_apply : inputs -> embedding.

(** [self.value.apply(x=embedding)] and the [states_value] of the base
    classes, which are not among the sources. *)
Variable value_apply : embedding -> values.
Variable super_states_value : inputs -> bool -> bool -> outcome values.

Definition states_value (self : policy) (x : inputs)
  (reduced return_per_action : bool) : outcome values :=
  match infer_state_value self with
  | infer_False =>
      if negb reduced || return_per_action then
        Failed (TensorforceError_invalid "policy.states_value" "reduced")
      else
        let emb := network_apply x in
        match value self with
        | Some _ => Done (value_apply emb)
        | None => Failed (AttributeError "value")
        end
  | _ => super_states_value x reduced return_per_action
  end.

End StatesValue.

Arguments states_value {inputs embedding values}.

End ParametrizedDistributions.

(** ** tensorforce/core/networks/auto.py *)

Module AutoNetwork.

(** A layer descriptor is a Python [dict(type=..., name=..., ...)]: its
    items in the order of the keywords. *)
Definition layer : Type := list (string * pyobj).

(** A Python [bool] used in arithmetic: [True] is 1, [False] is 0. *)
Definition int_of_bool (b : bool) : Z := if b then 1 else 0.

(** [spec.type == 'bool' or spec.type == 'int']. *)
Definition requires_embedding (spec : TensorSpec) : bool :=
  match type spec with
  | type_bool | type_int => true
  | type_float => false
  end.

(** [rnn is not False]: only the object [False] itself is excluded. *)
Definition is_not_False (rnn : pyobj) : bool :=
  match rnn with
  | PyBool false => false
  | _ => true
  end.

(** The shape-specific branch of the loop body: the layers so far (with
    [flatten] appended for rank 0) and the name of the repeated layer
    type, or the error of the last [else]. *)
Definition shape_specific (input_name : string) (spec : TensorSpec)
  (state_layers : list layer) : result (list layer * string) :=
  let emb := int_of_bool (requires_embedding spec) in
  if rank spec =? 1 - emb then Ok (state_layers, "dense"%string)
  else if rank spec =? 2 - emb then Ok (state_layers, "conv1d"%string)
  else if rank spec =? 3 - emb then Ok (state_layers, "conv2d"%string)
  else if rank spec =? 0 then
    Ok (state_layers
          ++ [[("type", PyStr "flatten");
               ("name", PyStr (input_name ++ "_flatten"))]%string],
        "dense"%string)
  else
    Raise (TensorforceError_value "AutoNetwork" "input rank"
             (PyInt (rank spec)) None (Some ">= 3"%string)).

(** The body of [for input_name, spec in inputs_spec.items()]: the pipeline
    [state_layers] of one input. *)
Definition state_layers (size depth : Z) (input_name : string)
  (spec : TensorSpec) : result (list layer) :=
  let emb := int_of_bool (requires_embedding spec) in
  let state_layers :=
    [[("type", PyStr "retrieve");
      ("name", PyStr (input_name ++ "_retrieve"));
      ("tensors", PyTuple [PyStr input_name])]%string] in
  let state_layers :=
    if requires_embedding spec then
      state_layers
        ++ [[("type", PyStr "embedding");
             ("name", PyStr (input_name ++ "_embedding"));
             ("size", PyInt size)]%string]
    else state_layers in
  chosen <- shape_specific input_name spec state_layers ;;
  let state_layers := fst chosen in
  let layer := snd chosen in
  let state_layers :=
    state_layers
      ++ map (fun n =>
                [("type", PyStr layer);
                 ("name", PyStr (input_name ++ "_" ++ layer ++ str n));
                 ("size", PyInt size)]%string)
             (range (depth - emb)) in
  let state_layers :=
    if Z.of_nat (List.length (shape spec)) >? 1 - emb then
      state_layers
        ++ [[("type", PyStr "pooling");
             ("name", PyStr (input_name ++ "_pooling"));
             ("reduction", PyStr "max")]%string]
    else state_layers in
  Ok (state_layers
        ++ [[("type", PyStr "register");
             ("name", PyStr (input_name ++ "_register"));
             ("tensor", PyStr (input_name ++ "-embedding"))]%string]).

(** The loop over [inputs_spec.items()]: one pipeline per input, in order;
    the first unsupported rank raises. *)
Fixpoint inputs_layers (size depth : Z)
  (inputs_spec : list (string * TensorSpec)) : result (list (list layer)) :=
  match inputs_spec with
  | [] => Ok []
  | (input_name, spec) :: rest =>
      pipeline <- state_layers size depth input_name spec ;;
      pipelines <- inputs_layers size depth rest ;;
      Ok (pipeline :: pipelines)
  end.

(** The final combined pipeline. *)
Definition final_layers (final_size final_depth : Z) (rnn : pyobj)
  (inputs_spec : list (string * TensorSpec)) : list layer :=
  let final_layers :=
    [[("type", PyStr "retrieve");
      ("name", PyStr "retrieve");
      ("tensors",
       PyTuple (map (fun entry => PyStr (fst entry ++ "-embedding"))
                    inputs_spec));
      ("aggregation", PyStr "concat")]%string] in
  let final_layers :=
    if Z.of_nat (List.length inputs_spec) >? 1 then
      final_layers
        ++ map (fun n =>
                  [("type", PyStr "dense");
                   ("name", PyStr ("dense" ++ str n));
                   ("size", PyInt final_size)]%string)
               (range final_depth)
    else final_layers in
  if is_not_False rnn then
    final_layers
      ++ [[("type", PyStr "lstm");
           ("name", PyStr "lstm");
           ("size", PyInt final_size);
           ("horizon", rnn)]%string]
  else final_layers.

(** [AutoNetwork.__init__]: the [layers] handed to the constructor of
    [LayeredNetwork], or the exception raised before that call. *)
Definition __init__ (size depth : Z) (final_size : option Z)
  (final_depth : Z) (rnn : pyobj)
  (inputs_spec : list (string * TensorSpec)) : result (list (list layer)) :=
  let final_size :=
    match final_size with
    | None => size
    | Some given => given
    end in
  layers <- inputs_layers size depth inputs_spec ;;
  Ok (layers ++ [final_layers final_size final_depth rnn inputs_spec]).

(** Reading a descriptor: [layer['type']]. *)
Fixpoint lookup (key : string) (d : layer) : option pyobj :=
  match d with
  | [] => None
  | (k, v) :: rest => if String.eqb k key then Some v else lookup key rest
  end.

Definition layer_type (d : layer) : option pyobj := lookup "type" d.

(** The types of the layers of a pipeline, in order. *)
Definition layer_types (pipeline : list layer) : list (option pyobj) :=
  map layer_type pipeline.

(** The rank-to-layer table as the specification words it: the layers that
    precede the repeated layer (flatten or nothing) and the type of the
    repeated layer; nothing for a rank outside 0..3. *)
Definition spec_table (r : Z) : option (list string * string) :=
  if r =? 0 then Some (["flatten"], "dense")%string
  else if r =? 1 then Some ([], "dense")%string
  else if r =? 2 then Some ([], "conv1d")%string
  else if r =? 3 then Some ([], "conv2d")%string
  else None.

(** The error of an unsupported rank. *)
Definition rank_error (spec : TensorSpec) : error :=
  TensorforceError_value "AutoNetwork" "input rank" (PyInt (rank spec))
    None (Some ">= 3"%string).

(** The rank of an input once a bool or int input has been embedded: the
    embedding adds one dimension. *)
Definition embedded_rank (spec : TensorSpec) : Z :=
  rank spec + int_of_bool (requires_embedding spec).

(** The layer types of the pipeline of one input: retrieve, the embedding
    if any, [pre] (flatten or nothing), the repeated [layer], the pooling if
    any, register. *)
Definition pipeline_types (depth : Z) (spec : TensorSpec)
  (pre : list string) (layer : string) : list (option pyobj) :=
  map (fun s => Some (PyStr s))
    (["retrieve"%string]
       ++ (if requires_embedding spec then ["embedding"%string] else [])
       ++ pre
       ++ repeat layer
            (Z.to_nat (depth - int_of_bool (requires_embedding spec)))
       ++ (if Z.of_nat (List.length (shape spec))
              >? 1 - int_of_bool (requires_embedding spec)
           then ["pooling"%string] else [])
       ++ ["register"%string]).

(** What a pipeline registers, [pipeline[-1]['tensor']], and what it
    retrieves, [pipeline[0]['tensors']]. *)
Definition registered (pipeline : list layer) : option pyobj :=
  lookup "tensor" (last pipeline []).

Definition retrieved (pipeline : list layer) : option pyobj :=
  lookup "tensors" (hd [] pipeline).

(** The names of all layers of a network, pipeline after pipeline. *)
Definition layer_names (layers : list (list layer)) : list (option pyobj) :=
  map (lookup "name") (List.concat layers).

(** The character ['_'], [chr(95)], and a string without it. *)
Definition underscore : Ascii.ascii := Ascii.ascii_of_nat 95.

Fixpoint no_underscore (s : string) : Prop :=
  match s with
  | EmptyString => True
  | String c rest => c <> underscore /\ no_underscore rest
  end.

End AutoNetwork.

(** ** tensorforce/core/optimizers/subsampling_step.py *)

Module SubsamplingStep.

(** A tensor as the step sees it: its rows along the first (batch)
    dimension, each row holding the cells of the remaining dimensions. *)
Inductive tensor : Type :=
| FloatTensor (rows : list (list Q))
| IntTensor (rows : list (list Z)).

(** [tf.shape(input=x)[0]]. *)
Definition shape0 (x : tensor) : Z :=
  match x with
  | FloatTensor rows => Z.of_nat (List.length rows)
  | IntTensor rows => Z.of_nat (List.length rows)
  end.

(** Modelled from the spec: [TensorDict] (tensorforce.core.utils) is not
    among the sources; it is the ordered mapping from name to tensor of the
    data model.  Nested entries are kept under their '/'-joined names, the
    names that [items()] yields and that [name.startswith('states')] tests. *)
Definition TensorDict : Type := list (string * tensor).

(** Does [name] denote the entry [key] or an entry nested below it? *)
Definition under (key name : string) : bool :=
  String.eqb name key || String.prefix (key ++ "/") name.

(** [key in d]. *)
Definition contains (key : string) (d : TensorDict) : bool :=
  existsb (fun entry => under key (fst entry)) d.

(** [d[key]] where a tensor is expected. *)
Fixpoint getitem (d : TensorDict) (key : string) : result tensor :=
  match d with
  | [] => Raise (KeyError key)
  | (name, x) :: rest =>
      if String.eqb name key then Ok x else getitem rest key
  end.

(** [d[key]] where a nested [TensorDict] is expected: the entries at or
    below [key]. *)
Definition subdict (key : string) (d : TensorDict) : TensorDict :=
  filter (fun entry => under key (fst entry)) d.

(** [tf.gather(params=rows, indices=indices)] along the first dimension; an
    index outside [0, len(rows)) is an error (the behaviour of the
    operation on a CPU). *)
Fixpoint gather_rows {A : Type} (rows : list A) (indices : list Z)
  : result (list A) :=
  match indices with
  | [] => Ok []
  | i :: rest =>
      match (if i <? 0 then None else nth_error rows (Z.to_nat i)) with
      | Some row =>
          gathered <- gather_rows rows rest ;;
          Ok (row :: gathered)
      | None => Raise (InvalidArgumentError "gather")
      end
  end.

Definition gather (params : tensor) (indices : list Z) : result tensor :=
  match params with
  | FloatTensor rows =>
      gathered <- gather_rows rows indices ;; Ok (FloatTensor gathered)
  | IntTensor rows =>
      gathered <- gather_rows rows indices ;; Ok (IntTensor gathered)
  end.

(** [d.fmap(function=(lambda x: tf.gather(params=x, indices=indices)))]. *)
Fixpoint fmap_gather (d : TensorDict) (indices : list Z) : result TensorDict :=
  match d with
  | [] => Ok []
  | (name, x) :: rest =>
      gathered <- gather x indices ;;
      others <- fmap_gather rest indices ;;
      Ok ((name, gathered) :: others)
  end.

(** The horizons tensor is an integer tensor of shape [(batch, 2)]: its
    rows [h] as pairs [(h[0], h[1])] of offset and length. *)
Fixpoint horizon_pairs (rows : list (list Z)) : result (list (Z * Z)) :=
  match rows with
  | [] => Ok []
  | [offset; length] :: rest =>
      pairs <- horizon_pairs rest ;;
      Ok ((offset, length) :: pairs)
  | _ :: _ => Raise (InvalidArgumentError "horizons")
  end.

Definition horizon_rows (x : tensor) : result (list (Z * Z)) :=
  match x with
  | IntTensor rows => horizon_pairs rows
  | FloatTensor _ => Raise (InvalidArgumentError "horizons")
  end.

(** [tf.math.cumsum(x=xs, exclusive=True)]. *)
Fixpoint cumsum_exclusive_from (acc : Z) (xs : list Z) : list Z :=
  match xs with
  | [] => []
  | x :: rest => acc :: cumsum_exclusive_from (acc + x) rest
  end.

Definition cumsum_exclusive (xs : list Z) : list Z :=
  cumsum_exclusive_from 0 xs.

(** [subsampled_states_indices()], the expansion path: [tf.foldl] over the
    gathered horizons, starting from the empty [indices[:0]], appending
    [tf.range(start=h[0], limit=(h[0] + h[1]))] for each. *)
Definition subsampled_states_indices (horizons : list (Z * Z))
  (indices : list Z) : list Z :=
  fold_left
    (fun acc h => acc ++ range_from (fst h) (fst h + snd h))
    horizons (firstn 0 indices).

Section Step.

(** [self.fraction.value()], a float32 tensor. *)
Variable fraction : Float32.t.

(** The realization of [tf.random.uniform(shape=(n,), maxval=m,
    dtype=int)], as a function of [n] and [m]. *)
Variable random_uniform : Z -> Z -> list Z.

(** [self.optimizer.step(arguments=subsampled_arguments, **kwargs)] of the
    wrapped optimizer, and the type of what it returns. *)
Variable deltas : Type.
Variable optimizer_step : TensorDict -> result deltas.

(** Lines 64 to 69: the number of indices drawn for a batch size.  The
    batch size is cast to float32, the product is a float32 product, and
    its cast to int64 drops the fractional part.  ([tf_util.cast] is not
    among the sources: it is [tf.cast] to the float and integer types of
    the graph.) *)
Definition num_samples (batch_size : Z) : Z :=
  let num_samples := Float32.mul fraction (Float32.of_int batch_size) in
  let num_samples := Float32.to_int num_samples in
  let one := 1 in
  Z.max num_samples one.

(** The indices of the states to gather: the sampled indices themselves
    when every horizon has length one, the expanded windows otherwise
    ([tf.cond]). *)
Definition states_indices (is_one_horizons : bool)
  (gathered_horizons : list (Z * Z)) (indices : list Z) : list Z :=
  if is_one_horizons then indices
  else subsampled_states_indices gathered_horizons indices.

(** The [if states is not None] block: the entries stored under ['states']
    and ['horizons']. *)
Definition subsample_states (arguments states : TensorDict)
  (indices : list Z) : result TensorDict :=
  horizons <- getitem arguments "horizons" ;;
  horizons <- horizon_rows horizons ;;
  let one := 1 in
  let is_one_horizons := forallb (fun h => snd h =? one) horizons in
  horizons <- gather_rows horizons indices ;;
  let indices' := states_indices is_one_horizons horizons indices in
  subsampled_states <- fmap_gather states indices' ;;
  let lengths := map snd horizons in
  Ok (subsampled_states
        ++ [("horizons"%string,
             IntTensor (zip_with (fun offset length => [offset; length])
                                 (cumsum_exclusive lengths) lengths))]).

(** The loop over [arguments.items()]: every entry that passes the test is
    gathered by the sampled indices and stored under its own name. *)
Fixpoint subsample_others (has_states : bool) (items : TensorDict)
  (indices : list Z) : result TensorDict :=
  match items with
  | [] => Ok []
  | (name, argument) :: rest =>
      if negb has_states
         || (negb (String.prefix "states" name)
             && negb (String.eqb name "horizons"))
      then
        gathered <- gather argument indices ;;
        others <- subsample_others has_states rest indices ;;
        Ok ((name, gathered) :: others)
      else subsample_others has_states rest indices
  end.

(** The indices drawn for the batch. *)
Definition sample_indices (batch_size : Z) : list Z :=
  random_uniform (num_samples batch_size) batch_size.

(** Everything before the delegation: the [subsampled_arguments]. *)
Definition subsample (arguments : TensorDict) : result TensorDict :=
  let states :=
    if contains "states" arguments && contains "horizons" arguments
    then Some (subdict "states" arguments)
    else None in
  reward <- getitem arguments "reward" ;;
  let batch_size := shape0 reward in
  let indices := sample_indices batch_size in
  special <- match states with
             | Some states => subsample_states arguments states indices
             | None => Ok []
             end ;;
  others <- subsample_others
              (match states with Some _ => true | None => false end)
              arguments indices ;;
  Ok (special ++ others).

Definition step (arguments : TensorDict) : result deltas :=
  subsampled_arguments <- subsample arguments ;;
  optimizer_step subsampled_arguments.

End Step.

(** The size of the minibatch as the specification words it: the product
    rounded to the nearest integer (a half is rounded up), at least one. *)
Definition round_nearest (q : Q) : Z :=
  Qfloor (q + (1 # 2))%Q.

Definition spec_num_samples (fraction : Q) (batch_size : Z) : Z :=
  Z.max 1 (round_nearest (fraction * inject_Z batch_size)%Q).

(** [sum(xs)]. *)
Definition total (xs : list Z) : Z := fold_right Z.add 0 xs.

(** The names that the loop over the items gathers when the batch has
    states and horizons: [not name.startswith('states') and
    name != 'horizons']. *)
Definition gathered_directly (name : string) : bool :=
  negb (String.prefix "states" name) && negb (String.eqb name "horizons").

End SubsamplingStep.

(** ** tensorforce/core/optimizers/evolutionary.py *)

Module Evolutionary.

(** A cell of a float tensor under exact arithmetic: a rational, or one of
    the special values that a float division produces ([x / 0.0] is an
    infinity for [x] non-zero and NaN for [x] zero; no exception is
    raised).  Rounding and the sign of zero are left out. *)
Inductive tfloat : Type :=
| Fin (q : Qc)
| PInf
| NInf
| NaN.

(** An infinity by its sign; NaN where the sign is undetermined. *)
Definition inf_of (sign : comparison) : tfloat :=
  match sign with
  | Gt => PInf
  | Lt => NInf
  | Eq => NaN
  end.

Definition sign_mul (s1 s2 : comparison) : comparison :=
  match s1, s2 with
  | Eq, _ | _, Eq => Eq
  | Gt, Gt | Lt, Lt => Gt
  | Gt, Lt | Lt, Gt => Lt
  end.

(** The sign of a cell that is not NaN. *)
Definition sign_of (x : tfloat) : comparison :=
  match x with
  | Fin q => (q ?= 0)%Qc
  | PInf => Gt
  | NInf => Lt
  | NaN => Eq
  end.

Definition tadd (x y : tfloat) : tfloat :=
  match x, y with
  | Fin a, Fin b => Fin (a + b)%Qc
  | NaN, _ | _, NaN => NaN
  | PInf, NInf | NInf, PInf => NaN
  | PInf, _ | _, PInf => PInf
  | NInf, _ | _, NInf => NInf
  end.

Definition topp (x : tfloat) : tfloat :=
  match x with
  | Fin a => Fin (- a)%Qc
  | PInf => NInf
  | NInf => PInf
  | NaN => NaN
  end.

Definition tsub (x y : tfloat) : tfloat := tadd x (topp y).

Definition tmul (x y : tfloat) : tfloat :=
  match x, y with
  | Fin a, Fin b => Fin (a * b)%Qc
  | NaN, _ | _, NaN => NaN
  | _, _ => inf_of (sign_mul (sign_of x) (sign_of y))
  end.

Definition tdiv (x y : tfloat) : tfloat :=
  match x, y with
  | NaN, _ | _, NaN => NaN
  | Fin a, Fin b =>
      match (b ?= 0)%Qc with
      | Eq => inf_of (a ?= 0)%Qc
      | _ => Fin (a / b)%Qc
      end
  | Fin _, _ => Fin 0%Qc
  | _, Fin b =>
      inf_of (sign_mul (sign_of x)
                       (match (b ?= 0)%Qc with Lt => Lt | _ => Gt end))
  | _, _ => NaN
  end.

(** [tf.math.sign]. *)
Definition tsign (x : tfloat) : tfloat :=
  match x with
  | Fin a =>
      match (a ?= 0)%Qc with
      | Lt => Fin (- (1))%Qc
      | Eq => Fin 0%Qc
      | Gt => Fin 1%Qc
      end
  | PInf => Fin 1%Qc
  | NInf => Fin (- (1))%Qc
  | NaN => NaN
  end.

(** A variable, a perturbation or a delta: a float tensor, as the list of
    its cells. *)
Definition tensor : Type := list tfloat.

(** [tf.zeros_like(input=variable)]. *)
Definition zeros_like (variable : tensor) : tensor :=
  map (fun _ => Fin 0%Qc) variable.

(** Modelled from the spec: [tf_util.cast(x=num_samples, dtype='float')]
    (tensorforce.core.tf_util is not among the sources) is the sample count
    as a float. *)
Definition cast_float (n : Z) : tfloat := Fin (Q2Qc (inject_Z n)).

(** [for variable, delta in zip(variables, deltas):
       variable.assign_add(delta=delta)]: the content of the variables
    afterwards; a variable beyond the end of [deltas] is not written. *)
Fixpoint assign_add (variables deltas : list tensor) : list tensor :=
  match variables, deltas with
  | variable :: variables', delta :: deltas' =>
      zip_with tadd variable delta :: assign_add variables' deltas'
  | _, _ => variables
  end.

(** The local names that are bound after the sampling loop, [None] for a
    name that no statement has assigned yet, and the content of the
    variables at that point. *)
Record locals : Type := {
  deltas : list tensor;
  previous_perturbations : list tensor;
  perturbations : option (list tensor);
  num_samples : option Z;
  variables : list tensor
}.

(** The attributes of the optimizer: [self.learning_rate.value()],
    [self.unroll_loop] and [self.num_samples] (the integer itself when the
    loop is unrolled, the value of the parameter otherwise). *)
Record t : Type := {
  learning_rate : tfloat;
  unroll_loop : bool;
  self_num_samples : Z
}.

Section Step.

(** What [fn_reference] returns, and the two functions: both read the
    current content of the variables ([arguments] is fixed during a call). *)
Variable reference : Type.
Variable fn_reference : list tensor -> reference.
Variable fn_comparative_loss : reference -> list tensor -> tfloat.

(** The realization of the draws: [normal k j e] is cell [e] of
    [tf.random.normal(shape=shape(variable))] for the variable at position
    [j], at iteration [k]. *)
Variable normal : nat -> nat -> nat -> Qc.

Definition random_normal (k j : nat) (variable : tensor) : tensor :=
  map (fun e => Fin (normal k j e)) (seq 0 (List.length variable)).

(** The list comprehension over [variables] that draws one perturbation per
    variable; [scale] multiplies a draw by the learning rate. *)
Fixpoint draw (scale : tfloat -> tfloat) (k j : nat) (vars : list tensor)
  : list tensor :=
  match vars with
  | [] => []
  | variable :: rest =>
      map scale (random_normal k j variable) :: draw scale k (S j) rest
  end.

(** One iteration of either loop; the two differ by the side on which the
    learning rate is multiplied. *)
Definition iteration (scale : tfloat -> tfloat) (ref : reference)
  (unperturbed_loss : tfloat) (k : nat)
  (state : list tensor * list tensor * list tensor)
  : list tensor * list tensor * list tensor :=
  let '(deltas, previous_perturbations, vars) := state in
  let perturbations := draw scale k 0 vars in
  let perturbation_deltas :=
    zip_with (zip_with tsub) perturbations previous_perturbations in
  let vars := assign_add vars perturbation_deltas in
  let perturbed_loss := fn_comparative_loss ref vars in
  let direction := tsign (tsub unperturbed_loss perturbed_loss) in
  let deltas :=
    zip_with (fun delta perturbation =>
                zip_with tadd delta (map (tmul direction) perturbation))
             deltas perturbations in
  (deltas, perturbations, vars).

(** [body] of the TensorFlow while loop. *)
Definition body (lr : tfloat) := iteration (fun x => tmul lr x).

(** The body of the unrolled [for] loop. *)
Definition unrolled_body (lr : tfloat) := iteration (fun x => tmul x lr).

(** [tf.while_loop(cond=always_true, body=body,
    maximum_iterations=num_samples)], and equally the [for] loop over
    [range(self.num_samples)]: the iterations [0 .. n-1] in order. *)
Definition loop (f : nat -> list tensor * list tensor * list tensor ->
                     list tensor * list tensor * list tensor)
  (n : Z) (state : list tensor * list tensor * list tensor)
  : list tensor * list tensor * list tensor :=
  fold_left (fun st k => f k st) (seq 0 (Z.to_nat n)) state.

(** The two branches of [if self.unroll_loop]. *)
Definition sampling (self : t) (vars : list tensor) : locals :=
  let lr := learning_rate self in
  let ref := fn_reference vars in
  let unperturbed_loss := fn_comparative_loss ref vars in
  let deltas0 := map zeros_like vars in
  let previous_perturbations0 := map zeros_like vars in
  if unroll_loop self then
    let '(ds, prev, vars') :=
      loop (unrolled_body lr ref unperturbed_loss) (self_num_samples self)
           (deltas0, previous_perturbations0, vars) in
    {| deltas := ds;
       previous_perturbations := prev;
       perturbations :=
         if 0 <? self_num_samples self then Some prev else None;
       num_samples := None;
       variables := vars' |}
  else
    let n := self_num_samples self in
    let '(ds, perts, vars') :=
      loop (body lr ref unperturbed_loss) n
           (deltas0, previous_perturbations0, vars) in
    {| deltas := ds;
       previous_perturbations := previous_perturbations0;
       perturbations := Some perts;
       num_samples := Some n;
       variables := vars' |}.

(** Reading a local name. *)
Definition read {A : Type} (name : string) (value : option A) : result A :=
  match value with
  | Some a => Ok a
  | None => Raise (UnboundLocalError name)
  end.

(** [step]: the returned deltas and the content of the variables after the
    call. *)
Definition step (self : t) (vars : list tensor)
  : result (list tensor * list tensor) :=
  let env := sampling self vars in
  n <- read "num_samples" (num_samples env) ;;
  let n := cast_float n in
  let ds := map (map (fun cell => tdiv cell n)) (deltas env) in
  perts <- read "perturbations" (perturbations env) ;;
  let perturbation_deltas := zip_with (zip_with tsub) ds perts in
  let vars' := assign_add (variables env) perturbation_deltas in
  Ok (ds, vars').

End Step.

(** *** The net effect as the specification words it, over the rationals *)

Section AveragedDelta.

Variable loss : list (list Qc) -> Qc.
Variable normal : nat -> nat -> nat -> Qc.
Variable rate : Qc.

(** [sign(x)] of a rational. *)
Definition Qcsign (x : Qc) : Qc :=
  match (x ?= 0)%Qc with
  | Lt => (- (1))%Qc
  | Eq => 0%Qc
  | Gt => 1%Qc
  end.

(** Cell-wise sum of two lists of rational tensors. *)
Definition vadd (xs ys : list (list Qc)) : list (list Qc) :=
  zip_with (zip_with Qcplus) xs ys.

(** The perturbation of sample [k]: the learning rate times the draw, one
    tensor per variable, of the variable's shape. *)
Fixpoint perturbation_from (k j : nat) (vars : list (list Qc))
  : list (list Qc) :=
  match vars with
  | [] => []
  | variable :: rest =>
      map (fun e => (rate * normal k j e)%Qc)
          (seq 0 (List.length variable))
        :: perturbation_from k (S j) rest
  end.

Definition perturbation (k : nat) (vars : list (list Qc)) : list (list Qc) :=
  perturbation_from k 0 vars.

(** [sign(unperturbed_loss - perturbed_loss_k)], the perturbed loss being
    the loss at the initial variables plus the perturbation of sample [k]. *)
Definition direction (vars : list (list Qc)) (k : nat) : Qc :=
  Qcsign (loss vars - loss (vadd vars (perturbation k vars)))%Qc.

(** The sum over the samples [0 .. n-1] of direction times perturbation. *)
Fixpoint weighted_sum (n : nat) (vars : list (list Qc)) : list (list Qc) :=
  match n with
  | O => map (map (fun _ => 0%Qc)) vars
  | S k =>
      vadd (weighted_sum k vars)
           (map (map (Qcmult (direction vars k))) (perturbation k vars))
  end.

(** [(1 / num_samples) * sum]. *)
Definition averaged_delta (n : nat) (vars : list (list Qc))
  : list (list Qc) :=
  map (map (fun x => (x / Q2Qc (inject_Z (Z.of_nat n)))%Qc))
      (weighted_sum n vars).

End AveragedDelta.

(** Rational tensors as float tensors. *)
Definition inject (vars : list (list Qc)) : list tensor :=
  map (map Fin) vars.

(** A list of tensors given cell by cell: [f j e] is cell [e] of the tensor
    at position [j], counted from [j0]; [sizes] lists the numbers of
    cells. *)
Fixpoint tabulate {A : Type} (f : nat -> nat -> A) (j0 : nat)
  (sizes : list nat) : list (list A) :=
  match sizes with
  | [] => []
  | n :: rest => map (f j0) (seq 0 n) :: tabulate f (S j0) rest
  end.

(** Cell [(j, e)] of the sum over the samples [0 .. n-1] of direction times
    perturbation. *)
Fixpoint weighted_cell (dir : nat -> Qc) (pert : nat -> nat -> nat -> Qc)
  (n j e : nat) : Qc :=
  match n with
  | O => 0%Qc
  | S k => (weighted_cell dir pert k j e + dir k * pert k j e)%Qc
  end.

(** Cell [(j, e)] of the perturbation that is applied to the variables
    after [n] iterations: the last one drawn, none before the first. *)
Definition applied_cell (pert : nat -> nat -> nat -> Qc) (n j e : nat) : Qc :=
  match n with
  | O => 0%Qc
  | S k => pert k j e
  end.

End Evolutionary.

(** * Properties *)

(** ** General lemmas *)

Lemma Qtruncate_nonneg (q : Q) : (0 <= q)%Q -> 0 <= Qtruncate q.
Proof.
  unfold Qle, Qtruncate; simpl; intros H.
  apply Z.quot_pos; lia.
Qed.

(** The truncation depends on the value of the rational only. *)
Lemma Qtruncate_nonneg_floor (q : Q) :
  0 <= Qnum q -> Qtruncate q = Qfloor q.
Proof.
  destruct q as [n d]; unfold Qtruncate, Qfloor; simpl; intros Hn.
  apply Z.quot_div_nonneg; lia.
Qed.



(** A non-negative value is truncated to an integer below a bound exactly
    when it lies below the bound. *)
Lemma Qtruncate_below (q : Q) (bound : Z) :
  (0 <= q)%Q -> (q < inject_Z bound)%Q <-> Qtruncate q < bound.
Proof.
  intros Hq.
  rewrite Qtruncate_nonneg_floor by (unfold Qle in Hq; simpl in Hq; lia).
  split; intros H.
  - rewrite Zlt_Qlt.
    apply Qle_lt_trans with q; [apply Qfloor_le | exact H].
  - apply Qlt_le_trans with (inject_Z (Qfloor q + 1)).
    + apply Qlt_floor.
    + rewrite <- Zle_Qle; lia.
Qed.

(** Inside the range of int64 the conversion is the truncation; beyond it
    the result is the smallest int64. *)
Lemma to_int64_in_range (q : Q) :
  int64_min <= Qtruncate q <= int64_max -> to_int64 q = Qtruncate q.
Proof.
  intros [Hlo Hhi]; unfold to_int64; cbv zeta.
  apply Z.leb_le in Hlo, Hhi; rewrite Hlo, Hhi; reflexivity.
Qed.

Lemma to_int64_above (q : Q) :
  int64_max < Qtruncate q -> to_int64 q = int64_min.
Proof.
  intros H; unfold to_int64; cbv zeta.
  apply Z.leb_gt in H; rewrite H, andb_false_r; reflexivity.
Qed.


Lemma length_range (n : Z) : List.length (range n) = Z.to_nat n.
Proof.
  unfold range; rewrite length_map, length_seq; reflexivity.
Qed.

Lemma map_const_repeat {A B : Type} (c : B) (l : list A) :
  map (fun _ => c) l = repeat c (List.length l).
Proof.
  induction l as [|a l IH]; simpl; [reflexivity | now rewrite IH].
Qed.

(** ** OrnsteinUhlenbeck *)

Section OrnsteinUhlenbeckProperties.

Import OrnsteinUhlenbeck.

(** The returned value of a non-negative process: the process itself for a
    float parameter; for an int parameter its truncation, which is
    non-negative, as long as the process is below [2 ** 63], and the
    smallest int64 from there on. *)
Lemma cast_of_nonneg (x : Q) (d : dtype) :
  (0 <= x)%Q ->
  (d = Float -> cast x d = NFloat x) /\
  (d = Int ->
   ((x < inject_Z (2 ^ 63))%Q ->
    cast x d = NInt (Qtruncate x) /\ nonneg (cast x d)) /\
   ((inject_Z (2 ^ 63) <= x)%Q -> cast x d = NInt int64_min)).
Proof.
  intros Hx; split; [intros ->; reflexivity|].
  intros ->; cbn [cast]; split.
  - intros Hlt; apply (Qtruncate_below x (2 ^ 63) Hx) in Hlt.
    pose proof (Qtruncate_nonneg x Hx) as Hpos.
    rewrite to_int64_in_range by (unfold int64_min, int64_max; lia).
    split; [reflexivity | exact Hpos].
  - intros Hge; rewrite to_int64_above; [reflexivity|].
    destruct (Z.lt_ge_cases (Qtruncate x) (2 ^ 63)) as [Hlt | Hle];
      [|unfold int64_max; lia].
    apply (Qtruncate_below x (2 ^ 63) Hx) in Hlt.
    exfalso; apply (Qlt_not_le _ _ Hlt Hge).
Qed.

Lemma requests_absolute (self : t) (normals : list Q) :
  absolute self = true ->
  forall process,
    Forall (fun step =>
              (0 <= fst step)%Q /\
              snd step = cast (fst step) (spec_type self))
           (requests self process normals).
Proof.
  intros Habs; induction normals as [|z rest IH]; intros process; simpl.
  - constructor.
  - constructor; [|apply IH].
    unfold parameter_value; rewrite Habs; cbv zeta; cbn [fst snd]; split.
    + apply Qabs_nonneg.
    + reflexivity.
Qed.





(** C8: with [absolute=True], for every sequence of value requests and every
    realization of the noise, the content of the process variable is
    non-negative after each update.  The returned value of a float
    parameter is that content.  The returned value of an int parameter is
    its truncation, non-negative, only while the process is below
    [2 ** 63]: from there on the cast leaves the range of int64 and the
    request returns the smallest int64, a negative value. *)
Theorem absolute_values_negative_beyond_int64
  (self : t) (normals : list Q) :
  absolute self = true ->
  Forall (fun step =>
            (0 <= fst step)%Q /\
            (spec_type self = Float -> snd step = NFloat (fst step)) /\
            (spec_type self = Int ->
             ((fst step < inject_Z (2 ^ 63))%Q ->
              snd step = NInt (Qtruncate (fst step)) /\
              nonneg (snd step)) /\
             ((inject_Z (2 ^ 63) <= fst step)%Q ->
              snd step = NInt int64_min)))
         (run self normals).
Proof.
  intros Habs.
  pose proof (requests_absolute self normals Habs (mu self)) as Hall.
  unfold run; revert Hall; apply Forall_impl.
  intros step [Hpos Hcast]; split; [exact Hpos|].
  rewrite Hcast; apply cast_of_nonneg; exact Hpos.
Qed.

Lemma absolute_values_negative_beyond_int64_witness :
  let self := {| theta := 0.15; sigma := inject_Z (2 ^ 70); mu := 0;
                 absolute := true; spec_type := Int |} in
  map snd (run self [1]%Q) = [NInt (- 9223372036854775808)].
Proof.
  cbv zeta.
  pose proof
    (Forall_inv
       (absolute_values_negative_beyond_int64
          {| theta := 0.15; sigma := inject_Z (2 ^ 70); mu := 0;
             absolute := true; spec_type := Int |} [1]%Q eq_refl))
    as (_ & _ & Hint).
  destruct (Hint eq_refl) as [_ Hbeyond].
  refine (f_equal (fun returned => [returned]) (Hbeyond _)).
  unfold Qle; vm_compute; discriminate.
Defined.

End OrnsteinUhlenbeckProperties.

(** ** ParametrizedDistributions *)

Section ParametrizedDistributionsProperties.

Import ParametrizedDistributions.

Variables inputs embedding conditions parameters values : Type.
Variable network_apply : inputs -> embedding.
Variable no_conditions : conditions.

Let policy : Type := t embedding conditions parameters values.

Lemma all_bool_int_iff (specs : list (string * TensorSpec)) :
  forallb (fun entry => type_in_bool_int (type (snd entry))) specs = false
  <-> exists name spec, In (name, spec) specs /\ type spec = type_float.
Proof.
  induction specs as [|[name spec] rest IH]; simpl.
  - split; [discriminate | intros (? & ? & [] & _)].
  - rewrite andb_false_iff, IH; split.
    + intros [H | (n & s & Hin & Hty)].
      * exists name, spec; split; [now left|].
        destruct (type spec); simpl in H; congruence.
      * exists n, s; auto.
    + intros (n & s & [Heq | Hin] & Hty).
      * inversion Heq; subst; left; rewrite Hty; reflexivity.
      * right; eauto.
Qed.

(** C9: [all_actions_values] raises the value error exactly when some action
    spec has type ['float']; otherwise it returns, for every action
    distribution in order, the action values of the distribution
    parametrized by the one shared embedding of the network. *)
Theorem all_actions_values_raises_iff_float
  (self : policy) (x : inputs) (auxiliaries : list (string * conditions)) :
  let call :=
    all_actions_values network_apply no_conditions self x auxiliaries in
  let error :=
    TensorforceError_value "ParametrizedDistributions" "infer_state_value"
      (PyStr "action-values") (Some "action types not bool/int"%string)
      None in
  ((exists e, call = Raise e) <->
   (exists name spec,
      In (name, spec) (actions_spec self) /\ type spec = type_float)) /\
  ((exists name spec,
      In (name, spec) (actions_spec self) /\ type spec = type_float) ->
   call = Raise error) /\
  ((forall name spec,
      In (name, spec) (actions_spec self) ->
      type spec = type_bool \/ type spec = type_int) ->
   call =
     Ok (map (fun entry =>
                (fst entry,
                 all_action_values (snd entry)
                   (parametrize (snd entry) (network_apply x)
                      (get no_conditions auxiliaries (fst entry)))))
             (distributions self))).
Proof.
  cbv zeta; unfold all_actions_values.
  pose proof (all_bool_int_iff (actions_spec self)) as Hiff.
  destruct (forallb _ (actions_spec self)) eqn:Hall; simpl.
  - assert (Hnone : ~ exists name spec,
               In (name, spec) (actions_spec self) /\ type spec = type_float).
    { intros H; apply Hiff in H; discriminate. }
    repeat split.
    + intros [e He]; discriminate.
    + intros H; contradiction.
    + intros H; contradiction.
  - assert (Hsome : exists name spec,
               In (name, spec) (actions_spec self) /\ type spec = type_float).
    { apply Hiff; reflexivity. }
    repeat split.
    + intros _; exact Hsome.
    + intros _; eexists; reflexivity.
    + intros Hbi; destruct Hsome as (n & s & Hin & Hty).
      destruct (Hbi n s Hin); congruence.
Qed.

End ParametrizedDistributionsProperties.

Lemma all_actions_values_raises_iff_float_witness :
  let d := {| ParametrizedDistributions.parametrize :=
                fun (e : Z) (c : Z) => e + c;
              ParametrizedDistributions.all_action_values :=
                fun p : Z => [p; p + 1] |} in
  let discrete := {| ParametrizedDistributions.actions_spec :=
                       [("a"%string, {| type := type_int; shape := [] |})];
                     ParametrizedDistributions.distributions :=
                       [("a"%string, d)] |} in
  let continuous := {| ParametrizedDistributions.actions_spec :=
                         [("a"%string, {| type := type_float; shape := [] |})];
                       ParametrizedDistributions.distributions :=
                         [("a"%string, d)] |} in
  ParametrizedDistributions.all_actions_values (fun s : Z => 2 * s) 0
    discrete 5 [] = Ok [("a"%string, [10; 11])] /\
  ParametrizedDistributions.all_actions_values (fun s : Z => 2 * s) 0
    continuous 5 [] =
  Raise (TensorforceError_value "ParametrizedDistributions"
           "infer_state_value" (PyStr "action-values")
           (Some "action types not bool/int"%string) None).
Proof.
  cbv zeta; split.
  - apply (all_actions_values_raises_iff_float Z Z Z Z (list Z)
             (fun s : Z => 2 * s) 0).
    intros name spec [H | []]; inversion H; subst; right; reflexivity.
  - apply (all_actions_values_raises_iff_float Z Z Z Z (list Z)
             (fun s : Z => 2 * s) 0).
    eexists _, _; split; [left; reflexivity | reflexivity].
Defined.

(** ** AutoNetwork *)

Section AutoNetworkProperties.

Import AutoNetwork.

Local Open Scope string_scope.
Local Open Scope list_scope.
Local Open Scope Z_scope.

Lemma rank_nonneg (spec : TensorSpec) : 0 <= rank spec.
Proof. unfold rank; lia. Qed.

Lemma layer_types_app (p q : list layer) :
  layer_types (p ++ q) = layer_types p ++ layer_types q.
Proof. unfold layer_types; apply map_app. Qed.

Lemma layer_types_repeated (layer input_name : string) (size n : Z) :
  layer_types
    (map (fun k =>
            [("type", PyStr layer);
             ("name", PyStr (input_name ++ "_" ++ layer ++ str k)%string);
             ("size", PyInt size)])
         (range n))
  = repeat (Some (PyStr layer)) (Z.to_nat n).
Proof.
  unfold layer_types; rewrite map_map.
  rewrite <- (length_range n).
  induction (range n) as [|k l IH]; [reflexivity|].
  cbn [map List.length repeat]; f_equal; exact IH.
Qed.

Lemma layer_types_pre (input_name : string) (pre : list string) :
  layer_types
    (map (fun s => [("type", PyStr s);
                    ("name", PyStr (input_name ++ "_" ++ s)%string)])
         pre)
  = map (fun s => Some (PyStr s)) pre.
Proof.
  unfold layer_types; rewrite map_map; reflexivity.
Qed.

Ltac rank_cases r :=
  repeat match goal with
         | |- context [Z.eqb ?a ?b] => destruct (Z.eqb_spec a b); try lia
         end.

(** The shape-specific branch, by the rank after embedding. *)
Lemma shape_specific_by_embedded_rank (input_name : string)
  (spec : TensorSpec) (layers : list layer) :
  shape_specific input_name spec layers =
  match spec_table (embedded_rank spec) with
  | Some (pre, layer) =>
      Ok (layers
            ++ map (fun s => [("type", PyStr s);
                              ("name", PyStr (input_name ++ "_" ++ s)%string)])
                   pre,
          layer)
  | None => Raise (rank_error spec)
  end.
Proof.
  pose proof (rank_nonneg spec) as Hr.
  unfold shape_specific, spec_table, embedded_rank, rank_error.
  destruct (requires_embedding spec); simpl int_of_bool;
    rank_cases (rank spec); simpl; rewrite ?app_nil_r; reflexivity.
Qed.

Lemma spec_table_none (r : Z) : 0 <= r -> (spec_table r = None <-> 3 < r).
Proof.
  intros Hr; unfold spec_table; rank_cases r; split;
    intros H; try discriminate; try lia; reflexivity.
Qed.

(** The pipeline of one input, by the rank after embedding. *)
Lemma state_layers_by_embedded_rank (size depth : Z) (input_name : string)
  (spec : TensorSpec) :
  match spec_table (embedded_rank spec) with
  | Some (pre, layer) =>
      exists pipeline,
        state_layers size depth input_name spec = Ok pipeline /\
        layer_types pipeline = pipeline_types depth spec pre layer
  | None => state_layers size depth input_name spec = Raise (rank_error spec)
  end.
Proof.
  unfold state_layers; rewrite shape_specific_by_embedded_rank.
  destruct (spec_table (embedded_rank spec)) as [[pre layer]|];
    cbn [bind fst snd]; [|reflexivity].
  eexists; split; [reflexivity|].
  unfold pipeline_types.
  destruct (requires_embedding spec); cbn [int_of_bool];
    destruct (_ >? _);
    rewrite !layer_types_app, layer_types_repeated, layer_types_pre,
      !map_app, ?map_repeat, <- ?app_assoc;
    reflexivity.
Qed.

Lemma embedded_rank_nonneg (spec : TensorSpec) : 0 <= embedded_rank spec.
Proof.
  pose proof (rank_nonneg spec); unfold embedded_rank.
  destruct (requires_embedding spec); simpl; lia.
Qed.

Lemma state_layers_ok_iff (size depth : Z) (input_name : string)
  (spec : TensorSpec) :
  (exists pipeline, state_layers size depth input_name spec = Ok pipeline)
  <-> embedded_rank spec <= 3.
Proof.
  pose proof (state_layers_by_embedded_rank size depth input_name spec) as H.
  pose proof (spec_table_none _ (embedded_rank_nonneg spec)) as Hn.
  destruct (spec_table (embedded_rank spec)) as [[pre layer]|].
  - destruct H as (pipeline & Hok & _); split.
    + intros _; destruct (Z.le_gt_cases (embedded_rank spec) 3) as [|Hgt];
        [assumption|].
      apply Z.gt_lt_iff, Z.gt_lt, Hn in Hgt; discriminate.
    + intros _; eauto.
  - split.
    + intros [pipeline Hok]; congruence.
    + intros Hle; assert (3 < embedded_rank spec) by (apply Hn; reflexivity).
      lia.
Qed.

(** Construction of the per-input pipelines succeeds exactly when every
    input has a supported rank after embedding. *)
Lemma inputs_layers_ok_iff (size depth : Z)
  (inputs_spec : list (string * TensorSpec)) :
  (exists layers, inputs_layers size depth inputs_spec = Ok layers) <->
  Forall (fun entry => embedded_rank (snd entry) <= 3) inputs_spec.
Proof.
  induction inputs_spec as [|[name spec] rest IH]; simpl.
  - split; [constructor | eexists; reflexivity].
  - pose proof (state_layers_ok_iff size depth name spec) as Hone.
    destruct (state_layers size depth name spec) as [pipeline|err]; simpl.
    + destruct (inputs_layers size depth rest) as [ls|err]; simpl; split.
      * intros _; constructor; [apply Hone; eauto | apply IH; eauto].
      * intros _; eauto.
      * intros [layers H]; discriminate.
      * intros H; inversion H as [|? ? _ Hall]; subst.
        apply IH in Hall; destruct Hall; discriminate.
    + split.
      * intros [layers H]; discriminate.
      * intros H; inversion H as [|? ? Hle _]; subst.
        apply Hone in Hle; destruct Hle; discriminate.
Qed.

Lemma inputs_layers_length (size depth : Z)
  (inputs_spec : list (string * TensorSpec)) :
  forall layers,
    inputs_layers size depth inputs_spec = Ok layers ->
    List.length layers = List.length inputs_spec.
Proof.
  induction inputs_spec as [|[name spec] rest IH]; simpl; intros layers H.
  - inversion H; reflexivity.
  - destruct (state_layers size depth name spec); simpl in H;
      [|discriminate].
    destruct (inputs_layers size depth rest); simpl in H; [|discriminate].
    inversion H; subst; simpl; f_equal; apply IH; reflexivity.
Qed.

(** When construction fails, the error is the rank error of an input whose
    rank after embedding exceeds 3. *)
Lemma inputs_layers_raise (size depth : Z)
  (inputs_spec : list (string * TensorSpec)) (err : error) :
  inputs_layers size depth inputs_spec = Raise err ->
  exists name spec,
    In (name, spec) inputs_spec /\ 3 < embedded_rank spec /\
    err = rank_error spec.
Proof.
  induction inputs_spec as [|[name spec] rest IH]; simpl; [discriminate|].
  pose proof (state_layers_by_embedded_rank size depth name spec) as Hone.
  pose proof (spec_table_none _ (embedded_rank_nonneg spec)) as Hn.
  destruct (spec_table (embedded_rank spec)) as [[pre layer]|].
  - destruct Hone as (pipeline & -> & _); simpl.
    destruct (inputs_layers size depth rest) as [ls|e]; simpl;
      [discriminate|].
    intros H; inversion H; subst.
    destruct (IH eq_refl) as (n & sp & Hin & Hgt & Herr).
    exists n, sp; auto.
  - rewrite Hone; simpl; intros H; inversion H; subst.
    exists name, spec; repeat split; [now left | now apply Hn].
Qed.

(** C2 (as amended): the rank-to-layer table applies to the rank after
    embedding, which is the rank for a float input and the rank plus one
    for a bool or int input.  For every input the pipeline is built with
    the table's layers when that rank is 0..3 and the value error naming
    ['input rank'] is raised otherwise; so every rank above 3 raises, and
    construction succeeds exactly when every input's rank after embedding
    is at most 3. *)
Theorem rank_table_applies_to_embedded_rank
  (size depth : Z) (final_size : option Z) (final_depth : Z) (rnn : pyobj)
  (inputs_spec : list (string * TensorSpec))
  (input_name : string) (spec : TensorSpec) :
  embedded_rank spec
    = rank spec + (match type spec with type_float => 0 | _ => 1 end) /\
  match spec_table (embedded_rank spec) with
  | Some (pre, layer) =>
      exists pipeline,
        state_layers size depth input_name spec = Ok pipeline /\
        layer_types pipeline = pipeline_types depth spec pre layer
  | None =>
      state_layers size depth input_name spec
      = Raise (TensorforceError_value "AutoNetwork" "input rank"
                 (PyInt (rank spec)) None (Some ">= 3"))
  end /\
  (3 < rank spec ->
   state_layers size depth input_name spec = Raise (rank_error spec)) /\
  ((exists layers,
      __init__ size depth final_size final_depth rnn inputs_spec = Ok layers)
   <-> Forall (fun entry => embedded_rank (snd entry) <= 3) inputs_spec) /\
  (forall err,
      __init__ size depth final_size final_depth rnn inputs_spec = Raise err ->
      exists name sp,
        In (name, sp) inputs_spec /\ 3 < embedded_rank sp /\
        err = rank_error sp).
Proof.
  pose proof (state_layers_by_embedded_rank size depth input_name spec)
    as Hone.
  repeat split.
  - unfold embedded_rank, requires_embedding; destruct (type spec);
      reflexivity.
  - exact Hone.
  - intros Hgt.
    assert (Hnone : spec_table (embedded_rank spec) = None).
    { apply spec_table_none; [apply embedded_rank_nonneg|].
      unfold embedded_rank; destruct (requires_embedding spec); simpl; lia. }
    rewrite Hnone in Hone; exact Hone.
  - intros [layers H]; apply (inputs_layers_ok_iff size depth).
    unfold __init__ in H.
    destruct (inputs_layers size depth inputs_spec) as [ls|e];
      [eauto | discriminate].
  - intros H; apply (inputs_layers_ok_iff size depth) in H.
    destruct H as [ls Hls]; unfold __init__; rewrite Hls; simpl; eauto.
  - intros err H; apply (inputs_layers_raise size depth).
    unfold __init__ in H.
    destruct (inputs_layers size depth inputs_spec) as [ls|e]; simpl in H;
      [discriminate | congruence].
Qed.

Lemma rank_table_applies_to_embedded_rank_witness :
  let spec := {| type := type_float; shape := [7; 5; 3; 2] |} in
  state_layers 64 2 "image" spec = Raise (rank_error spec).
Proof.
  cbv zeta.
  apply (rank_table_applies_to_embedded_rank 64 2 None 1 (PyBool false) []
           "image" {| type := type_float; shape := [7; 5; 3; 2] |}).
  reflexivity.
Defined.

(** C2 as stated fails for embedded inputs: an int input of rank 3 is
    rejected although its rank is at most 3, and an int input of rank 1
    gets conv1d layers, not dense layers. *)
Lemma rank_table_fails_for_embedded_input :
  let image := {| type := type_int; shape := [4; 4; 3] |} in
  let vector := {| type := type_int; shape := [5] |} in
  rank image = 3 /\
  ~ (exists layers,
       __init__ 64 2 None 1 (PyBool false) [("image", image)] = Ok layers) /\
  rank vector = 1 /\
  spec_table (rank vector) = Some ([], "dense") /\
  exists pipeline,
    state_layers 64 2 "vector" vector = Ok pipeline /\
    layer_types pipeline
    = map (fun s => Some (PyStr s))
          ["retrieve"; "embedding"; "conv1d"; "pooling"; "register"].
Proof.
  cbv zeta; repeat split.
  - intros [layers H]; vm_compute in H; discriminate.
  - eexists; split; reflexivity.
Qed.

(** C7: when construction succeeds, the last pipeline is the merge
    pipeline.  It begins with a retrieve layer over exactly the keys
    ['<input_name>-embedding'] of the N inputs, in order, with concat
    aggregation; [final_depth] dense layers of size [final_size] follow when
    N >= 2 and none when N < 2; an lstm layer with horizon [rnn] is the last
    layer when [rnn] is not [False], and there is none when it is. *)
Theorem final_pipeline_structure
  (size depth : Z) (final_size : option Z) (final_depth : Z) (rnn : pyobj)
  (inputs_spec : list (string * TensorSpec)) (layers : list (list layer)) :
  __init__ size depth final_size final_depth rnn inputs_spec = Ok layers ->
  let N := List.length inputs_spec in
  let width := match final_size with None => size | Some given => given end in
  exists pipelines dense recurrent,
    layers
    = pipelines
        ++ [[("type", PyStr "retrieve");
             ("name", PyStr "retrieve");
             ("tensors",
              PyTuple (map (fun entry => PyStr (fst entry ++ "-embedding"))
                           inputs_spec));
             ("aggregation", PyStr "concat")]
              :: dense ++ recurrent] /\
    List.length pipelines = N /\
    ((2 <= N)%nat ->
     dense = map (fun n => [("type", PyStr "dense");
                            ("name", PyStr ("dense" ++ str n));
                            ("size", PyInt width)])
                 (range final_depth) /\
     List.length dense = Z.to_nat final_depth) /\
    ((N < 2)%nat -> dense = []) /\
    (rnn <> PyBool false ->
     recurrent = [[("type", PyStr "lstm"); ("name", PyStr "lstm");
                   ("size", PyInt width); ("horizon", rnn)]]) /\
    (rnn = PyBool false -> recurrent = []).
Proof.
  intros H N width; unfold __init__ in H.
  destruct (inputs_layers size depth inputs_spec) as [ls|e] eqn:Hls;
    simpl in H; [|discriminate].
  inversion H; subst layers; clear H.
  exists ls.
  exists (if Z.of_nat N >? 1
          then map (fun n => [("type", PyStr "dense");
                              ("name", PyStr ("dense" ++ str n));
                              ("size", PyInt width)])
                   (range final_depth)
          else []).
  exists (if is_not_False rnn
          then [[("type", PyStr "lstm"); ("name", PyStr "lstm");
                 ("size", PyInt width); ("horizon", rnn)]]
          else []).
  repeat split.
  - unfold final_layers; fold N; fold width.
    destruct (Z.of_nat N >? 1); destruct (is_not_False rnn);
      rewrite ?app_nil_r; reflexivity.
  - apply (inputs_layers_length size depth); exact Hls.
  - destruct (Z.gtb_spec (Z.of_nat N) 1); [reflexivity | lia].
  - destruct (Z.gtb_spec (Z.of_nat N) 1); [|lia].
    rewrite length_map, length_range; reflexivity.
  - intros Hlt; destruct (Z.gtb_spec (Z.of_nat N) 1); [lia | reflexivity].
  - intros Hrnn; destruct rnn as [[|]| | |]; try reflexivity.
    contradiction Hrnn; reflexivity.
  - intros ->; reflexivity.
Qed.

Lemma final_pipeline_structure_witness :
  exists pipelines dense recurrent,
    [[[("type", PyStr "retrieve"); ("name", PyStr "x_retrieve");
       ("tensors", PyTuple [PyStr "x"])];
      [("type", PyStr "dense"); ("name", PyStr "x_dense0");
       ("size", PyInt 8)];
      [("type", PyStr "register"); ("name", PyStr "x_register");
       ("tensor", PyStr "x-embedding")]];
     [[("type", PyStr "retrieve"); ("name", PyStr "retrieve");
       ("tensors", PyTuple [PyStr "x-embedding"]);
       ("aggregation", PyStr "concat")];
      [("type", PyStr "lstm"); ("name", PyStr "lstm");
       ("size", PyInt 8); ("horizon", PyInt 2)]]]
    = pipelines
        ++ [[("type", PyStr "retrieve");
             ("name", PyStr "retrieve");
             ("tensors", PyTuple [PyStr "x-embedding"]);
             ("aggregation", PyStr "concat")]
              :: dense ++ recurrent] /\
    List.length pipelines = 1%nat /\
    ((2 <= 1)%nat ->
     dense = map (fun n => [("type", PyStr "dense");
                            ("name", PyStr ("dense" ++ str n));
                            ("size", PyInt 8)])
                 (range 3) /\
     List.length dense = Z.to_nat 3) /\
    ((1 < 2)%nat -> dense = []) /\
    (PyInt 2 <> PyBool false ->
     recurrent = [[("type", PyStr "lstm"); ("name", PyStr "lstm");
                   ("size", PyInt 8); ("horizon", PyInt 2)]]) /\
    (PyInt 2 = PyBool false -> recurrent = []).
Proof.
  apply (final_pipeline_structure 8 1 None 3 (PyInt 2)
           [("x", {| type := type_float; shape := [4] |})]).
  reflexivity.
Defined.

End AutoNetworkProperties.

(** ** Single precision *)

Section Float32Properties.

Import SpecFloat.

Lemma digits2_pos_size (p : positive) : digits2_pos p = Pos.size p.
Proof.
  induction p; simpl; congruence.
Qed.

Lemma digits2_pos_shift (p k : positive) :
  digits2_pos (Pos.iter xO p k) = (digits2_pos p + k)%positive.
Proof.
  induction k using Pos.peano_ind.
  - simpl; now rewrite Pos.add_1_r.
  - rewrite Pos.iter_succ; simpl; rewrite IHk; lia.
Qed.

Lemma shift_value (p k : positive) :
  Zpos (Pos.iter xO p k) = Zpos p * 2 ^ Zpos k.
Proof.
  induction k using Pos.peano_ind.
  - simpl; lia.
  - rewrite Pos.iter_succ, Pos2Z.inj_xO, IHk, Pos2Z.inj_succ, Z.pow_succ_r;
      lia.
Qed.

Lemma digits2_pos_bound (p : positive) (n : Z) :
  0 <= n -> Zpos p < 2 ^ n -> Zpos (digits2_pos p) <= n.
Proof.
  intros Hn Hp; rewrite digits2_pos_size.
  destruct (Z.le_gt_cases (Zpos (Pos.size p)) n) as [H | H]; [exact H|].
  exfalso.
  pose proof (Pos.size_le p) as Hle.
  assert (H2 : 2 ^ Zpos (Pos.size p) <= 2 * Zpos p).
  { change 2 with (Zpos 2) at 1; rewrite <- Pos2Z.inj_pow; lia. }
  assert (H3 : 2 ^ (n + 1) <= 2 ^ Zpos (Pos.size p))
    by (apply Z.pow_le_mono_r; lia).
  rewrite Z.pow_add_r in H3 by lia; lia.
Qed.

(** A mantissa of full width at an exponent in range is not rounded. *)
Lemma round_canonical (s : bool) (m : positive) (e : Z) :
  Zpos (digits2_pos m) = 24 -> -149 <= e <= 104 ->
  binary_round_aux 24 128 s (Zpos m) e loc_Exact = S754_finite s m e.
Proof.
  intros Hd He; unfold binary_round_aux, shr_fexp, fexp, emin.
  cbn [Zdigits2]; rewrite Hd.
  replace (Z.max (24 + e - 24) (3 - 128 - 24) - e) with 0 by lia.
  cbn [shr shr_record_of_loc round_nearest_even loc_of_shr_record shr_m
       Zdigits2].
  rewrite Hd.
  replace (Z.max (24 + e - 24) (3 - 128 - 24) - e) with 0 by lia.
  cbn [shr shr_record_of_loc shr_m].
  replace (e <=? 128 - 24) with true by (symmetry; apply Z.leb_le; lia).
  reflexivity.
Qed.

(** The conversion of a positive integer below [2 ** 24] is exact. *)
Lemma of_int_exact (b : Z) :
  1 <= b < 2 ^ 24 ->
  exists m e,
    Float32.of_int b = S754_finite false m e /\
    Zpos (digits2_pos m) = 24 /\ -23 <= e <= 0 /\
    Zpos m = b * 2 ^ (- e).
Proof.
  intros Hb; destruct b as [|p|p]; try lia.
  assert (Hd : Zpos (digits2_pos p) <= 24)
    by (apply digits2_pos_bound; lia).
  unfold Float32.of_int, binary_normalize, binary_round, shl_align, fexp,
    emin, Float32.prec, Float32.emax.
  replace (Z.max (Zpos (digits2_pos p) + 0 - 24) (3 - 128 - 24) - 0)
    with (Zpos (digits2_pos p) - 24) by lia.
  replace (Z.max (Zpos (digits2_pos p) + 0 - 24) (3 - 128 - 24))
    with (Zpos (digits2_pos p) - 24) by lia.
  destruct (Zpos (digits2_pos p) - 24) as [|k|k] eqn:Hk; try lia.
  - exists p, 0; split; [|split; [|split]]; try lia.
    apply round_canonical; lia.
  - exists (Pos.iter xO p k), (Zpos (digits2_pos p) - 24).
    assert (Hdk : Zpos (digits2_pos (Pos.iter xO p k)) = 24)
      by (rewrite digits2_pos_shift; lia).
    rewrite Hk; split; [|split; [|split]]; try lia.
    + apply round_canonical; lia.
    + rewrite shift_value; reflexivity.
Qed.

Lemma shift_by_23 (m : positive) :
  iter_pos shr_1 23
    {| shr_m := Zpos (8388608 * m); shr_r := false; shr_s := false |}
  = {| shr_m := Zpos m; shr_r := false; shr_s := false |}.
Proof. reflexivity. Qed.

Lemma times_2_23 (m : positive) : (8388608 * m = Pos.iter xO m 23)%positive.
Proof. reflexivity. Qed.

(** Multiplying a float of full width by [1.0] returns it. *)
Lemma mul_one (s : bool) (m : positive) (e : Z) :
  Zpos (digits2_pos m) = 24 -> -149 <= e <= 104 ->
  Float32.mul Float32.one (S754_finite s m e) = S754_finite s m e.
Proof.
  intros Hd He.
  unfold Float32.mul, Float32.one, SFmul, Float32.prec, Float32.emax.
  cbn [xorb].
  unfold binary_round_aux at 1, shr_fexp at 1, fexp, emin.
  assert (Hdig : Zdigits2 (Zpos (8388608 * m)) = 47).
  { cbn [Zdigits2]; rewrite times_2_23, digits2_pos_shift; lia. }
  rewrite Hdig.
  replace (Z.max (47 + (-23 + e) - 24) (3 - 128 - 24) - (-23 + e))
    with 23 by lia.
  cbn [shr shr_record_of_loc]; rewrite shift_by_23.
  cbn [shr_m loc_of_shr_record round_nearest_even].
  replace (-23 + e + 23) with e by lia.
  unfold shr_fexp, fexp, emin; cbn [Zdigits2]; rewrite Hd.
  replace (Z.max (24 + e - 24) (3 - 128 - 24) - e) with 0 by lia.
  cbn [shr shr_record_of_loc shr_m].
  replace (e <=? 128 - 24) with true by (symmetry; apply Z.leb_le; lia).
  reflexivity.
Qed.

(** The conversion back to int64 of an integer held exactly. *)
Lemma to_int_exact (m : positive) (e b : Z) :
  -23 <= e <= 0 -> 0 <= b < 2 ^ 63 -> Zpos m = b * 2 ^ (- e) ->
  Float32.to_int (S754_finite false m e) = b.
Proof.
  intros He Hb Hm; unfold Float32.to_int, Float32.value, to_int64.
  assert (Htrunc :
            Qtruncate match e with
                      | Zneg k => Zpos m # (2 ^ k)%positive
                      | _ => inject_Z (Zpos m * 2 ^ e)
                      end = b).
  { destruct e as [|k|k]; try lia; unfold Qtruncate; simpl Qnum; simpl Qden.
    - rewrite Pos.mul_1_r, Z.quot_1_r, Hm; simpl; lia.
    - rewrite Hm, Pos2Z.inj_pow.
      change (- Z.neg k) with (Z.pos k).
      change (Z.pos 2) with 2.
      apply Z.quot_mul; apply Z.pow_nonzero; lia. }
  cbv zeta; rewrite Htrunc.
  unfold int64_min, int64_max.
  replace ((- 2 ^ 63 <=? b) && (b <=? 2 ^ 63 - 1)) with true; [reflexivity|].
  symmetry; apply andb_true_iff; split; apply Z.leb_le; lia.
Qed.

(** Rounding keeps the sign it is given. *)
Lemma round_sign (s : bool) (m e : Z) (l : location) :
  match binary_round_aux 24 128 s m e l with
  | S754_zero s' | S754_infinity s' | S754_finite s' _ _ => s' = s
  | S754_nan => True
  end.
Proof.
  unfold binary_round_aux.
  destruct (shr_fexp 24 128 m e l) as [mrs' e'].
  destruct (shr_fexp 24 128 _ e' loc_Exact) as [mrs'' e''].
  destruct (shr_m mrs''); [reflexivity | | exact I].
  destruct (e'' <=? 128 - 24); reflexivity.
Qed.

Lemma of_int_sign (b : Z) : 0 <= b -> Float32.sign_clear (Float32.of_int b).
Proof.
  intros Hb; destruct b as [|p|p]; [exact I | | lia].
  unfold Float32.of_int, binary_normalize, binary_round.
  destruct (shl_align p 0 _) as [mz ez].
  pose proof (round_sign false (Zpos mz) ez loc_Exact) as H.
  unfold Float32.prec, Float32.emax.
  destruct (binary_round_aux 24 128 false (Zpos mz) ez loc_Exact);
    simpl; auto.
Qed.

Lemma leb_zero_sign (x : Float32.t) :
  Float32.leb Float32.zero x = true -> Float32.sign_clear x.
Proof.
  destruct x as [s|s| |s m e]; simpl; try (intros; exact I);
    destruct s; simpl; intros H; try reflexivity; discriminate.
Qed.

Lemma mul_sign (x y : Float32.t) :
  Float32.sign_clear x -> Float32.sign_clear y ->
  Float32.sign_clear (Float32.mul x y).
Proof.
  destruct x as [sx|sx| |sx mx ex], y as [sy|sy| |sy my ey]; simpl;
    intros Hx Hy; subst; try exact I; try reflexivity.
  pose proof (round_sign false (Zpos (mx * my)) (ex + ey) loc_Exact) as H.
  unfold Float32.mul, SFmul, Float32.prec, Float32.emax; cbn [xorb].
  destruct (binary_round_aux 24 128 false (Zpos (mx * my)) (ex + ey)
              loc_Exact); simpl; auto.
Qed.

Lemma value_sign (x : Float32.t) (q : Q) :
  Float32.sign_clear x -> Float32.value x = Some q -> (0 <= q)%Q.
Proof.
  destruct x as [s|s| |s m e]; cbn [Float32.sign_clear Float32.value];
    intros Hs Hv; try discriminate.
  - inversion Hv; apply Qle_refl.
  - subst s; injection Hv as <-.
    destruct e as [|k|k]; unfold Qle; cbn [Qnum Qden inject_Z];
      try match goal with
          | |- context [2 ^ ?x] =>
              pose proof (Z.pow_nonneg 2 x ltac:(lia)); destruct (2 ^ x)
          end; lia.
Qed.

End Float32Properties.

(** ** SubsamplingStep *)

Section SubsamplingStepProperties.

Import SubsamplingStep.

Local Open Scope string_scope.
Local Open Scope list_scope.
Local Open Scope Z_scope.

Lemma getitem_absent (d : TensorDict) (key : string) :
  (forall x, ~ In (key, x) d) -> getitem d key = Raise (KeyError key).
Proof.
  induction d as [|[name x] rest IH]; simpl; intros Habs; [reflexivity|].
  destruct (String.eqb_spec name key) as [->|Hne].
  - exfalso; apply (Habs x); now left.
  - apply IH; intros y Hy; apply (Habs y); now right.
Qed.

Lemma getitem_In (d : TensorDict) (key : string) (x : tensor) :
  getitem d key = Ok x -> In (key, x) d.
Proof.
  induction d as [|[name y] rest IH]; simpl; [discriminate|].
  destruct (String.eqb_spec name key) as [->|Hne].
  - intros H; inversion H; now left.
  - intros H; right; auto.
Qed.

Lemma gather_rows_length {A : Type} (rows : list A) (indices : list Z) :
  forall gathered,
    gather_rows rows indices = Ok gathered ->
    List.length gathered = List.length indices.
Proof.
  induction indices as [|i rest IH]; simpl; intros gathered H.
  - inversion H; reflexivity.
  - destruct (if i <? 0 then None else nth_error rows (Z.to_nat i));
      [|discriminate].
    destruct (gather_rows rows rest); simpl in H; [|discriminate].
    inversion H; subst; simpl; f_equal; apply IH; reflexivity.
Qed.

Lemma gather_rows_in_range {A : Type} (rows : list A) (indices : list Z) :
  Forall (fun i => 0 <= i < Z.of_nat (List.length rows)) indices ->
  exists gathered, gather_rows rows indices = Ok gathered.
Proof.
  induction 1 as [|i rest Hi _ IH]; simpl; [eexists; reflexivity|].
  destruct (Z.ltb_spec i 0); [lia|].
  destruct (nth_error rows (Z.to_nat i)) eqn:Hnth.
  - destruct IH as [g ->]; simpl; eexists; reflexivity.
  - apply nth_error_None in Hnth; lia.
Qed.

Lemma gather_shape0 (x gathered : tensor) (indices : list Z) :
  gather x indices = Ok gathered ->
  shape0 gathered = Z.of_nat (List.length indices).
Proof.
  destruct x as [rows|rows]; simpl;
    destruct (gather_rows rows indices) as [g|] eqn:Hg; simpl;
    intros H; inversion H; subst; simpl;
    now rewrite (gather_rows_length _ _ _ Hg).
Qed.

Lemma gather_in_range (x : tensor) (indices : list Z) :
  Forall (fun i => 0 <= i < shape0 x) indices ->
  exists gathered, gather x indices = Ok gathered.
Proof.
  destruct x as [rows|rows]; simpl; intros H;
    destruct (gather_rows_in_range rows indices H) as [g ->]; simpl;
    eexists; reflexivity.
Qed.

(** What the loop over the items stores: every entry that passes the test,
    gathered by the sampled indices, under its own name. *)
Lemma subsample_others_entries (has_states : bool) (items : TensorDict)
  (indices : list Z) :
  forall others,
    subsample_others has_states items indices = Ok others ->
    forall name gathered,
      In (name, gathered) others ->
      exists x,
        In (name, x) items /\ gather x indices = Ok gathered.
Proof.
  induction items as [|[name x] rest IH]; simpl; intros others H n g Hin.
  - inversion H; subst; destruct Hin.
  - destruct (negb has_states || _).
    + destruct (gather x indices) as [gx|] eqn:Hgx; simpl in H;
        [|discriminate].
      destruct (subsample_others has_states rest indices) as [os|] eqn:Hos;
        simpl in H; [|discriminate].
      inversion H; subst; destruct Hin as [Heq | Hin].
      * inversion Heq; subst; exists x; split; [now left | assumption].
      * destruct (IH os eq_refl n g Hin) as (y & Hy & Hgy).
        exists y; split; [now right | assumption].
    + destruct (IH others H n g Hin) as (y & Hy & Hgy).
      exists y; split; [now right | assumption].
Qed.

Lemma subsample_others_plain (items : TensorDict) (indices : list Z) :
  Forall (fun entry => Forall (fun i => 0 <= i < shape0 (snd entry)) indices)
         items ->
  exists others,
    subsample_others false items indices = Ok others /\
    map fst others = map fst items.
Proof.
  induction 1 as [|[name x] rest Hx _ IH]; simpl.
  - eexists; split; reflexivity.
  - destruct (gather_in_range x indices Hx) as [g ->]; simpl.
    destruct IH as (os & -> & Hnames); simpl.
    eexists; split; [reflexivity | simpl; now rewrite Hnames].
Qed.

Lemma prefix_refl (s : string) : String.prefix s s = true.
Proof.
  induction s as [|c s IH]; simpl; [reflexivity|].
  destruct (Ascii.ascii_dec c c); [exact IH | congruence].
Qed.

Lemma prefix_append (s1 s2 s : string) :
  String.prefix (s1 ++ s2)%string s = true -> String.prefix s1 s = true.
Proof.
  revert s; induction s1 as [|c s1 IH]; intros s; simpl;
    [destruct s; reflexivity|].
  destruct s as [|c' s]; [discriminate|]; simpl.
  destruct (Ascii.ascii_dec c c'); [apply IH | discriminate].
Qed.

Lemma under_prefix (key name : string) :
  under key name = true -> String.prefix key name = true.
Proof.
  unfold under; intros H; apply orb_true_iff in H; destruct H as [H | H].
  - apply String.eqb_eq in H; subst; apply prefix_refl.
  - apply (prefix_append _ _ _ H).
Qed.

Lemma fmap_gather_names (d : TensorDict) (indices : list Z) :
  forall gathered,
    fmap_gather d indices = Ok gathered -> map fst gathered = map fst d.
Proof.
  induction d as [|[name x] rest IH]; simpl; intros gathered H.
  - inversion H; reflexivity.
  - destruct (gather x indices); simpl in H; [|discriminate].
    destruct (fmap_gather rest indices); simpl in H; [|discriminate].
    inversion H; subst; simpl; f_equal; apply IH; reflexivity.
Qed.

Lemma subdict_names (key : string) (d : TensorDict) (name : string) :
  In name (map fst (subdict key d)) -> String.prefix key name = true.
Proof.
  unfold subdict; intros H; apply in_map_iff in H.
  destruct H as ([n x] & <- & Hin); apply filter_In in Hin.
  apply under_prefix; exact (proj2 Hin).
Qed.

Lemma length_cumsum_exclusive_from (xs : list Z) :
  forall acc, List.length (cumsum_exclusive_from acc xs) = List.length xs.
Proof.
  induction xs as [|x xs IH]; intros acc; simpl; [reflexivity|].
  now rewrite IH.
Qed.

Lemma length_zip_with {A B C : Type} (f : A -> B -> C) (xs : list A) :
  forall ys,
    List.length xs = List.length ys ->
    List.length (zip_with f xs ys) = List.length xs.
Proof.
  induction xs as [|x xs IH]; intros [|y ys]; simpl; intros H;
    try reflexivity; try discriminate.
  f_equal; apply IH; lia.
Qed.

(** The entries stored by the [if states is not None] block: the states
    entries, then a ['horizons'] entry with one row per sampled index. *)
Lemma subsample_states_entries (arguments states : TensorDict)
  (indices : list Z) :
  forall special,
    subsample_states arguments states indices = Ok special ->
    exists sub_states new_horizons,
      special = sub_states ++ [("horizons", new_horizons)] /\
      map fst sub_states = map fst states /\
      shape0 new_horizons = Z.of_nat (List.length indices).
Proof.
  unfold subsample_states; intros special H.
  destruct (getitem arguments "horizons") as [ht|]; simpl in H;
    [|discriminate].
  destruct (horizon_rows ht) as [hs|]; simpl in H; [|discriminate].
  destruct (gather_rows hs indices) as [g|] eqn:Hg; simpl in H;
    [|discriminate].
  destruct (fmap_gather states _) as [ss|] eqn:Hss; simpl in H;
    [|discriminate].
  inversion H; subst; clear H.
  exists ss; eexists; split; [reflexivity|]; split.
  - apply (fmap_gather_names _ _ _ Hss).
  - simpl; rewrite length_zip_with;
      unfold cumsum_exclusive; rewrite length_cumsum_exclusive_from,
        length_map; [|reflexivity].
    now rewrite (gather_rows_length _ _ _ Hg).
Qed.

(** C10: the call needs a ['reward'] entry and takes the batch size from it
    alone.  Without the entry the call raises [KeyError] whatever the
    wrapped optimizer is, so before delegating.  With it, every argument
    that is gathered directly is gathered by the indices drawn for the
    number of rows of ['reward'], whatever the sizes of the other
    arguments. *)
Theorem batch_size_taken_from_reward
  (fraction : Float32.t) (random_uniform : Z -> Z -> list Z)
  (deltas : Type) (optimizer_step : TensorDict -> result deltas)
  (arguments : TensorDict) :
  ((forall x, ~ In ("reward", x) arguments) ->
   step fraction random_uniform deltas optimizer_step arguments
   = Raise (KeyError "reward")) /\
  (forall reward,
     getitem arguments "reward" = Ok reward ->
     let batch_size := shape0 reward in
     let indices :=
       random_uniform
         (Z.max
            (Float32.to_int
               (Float32.mul fraction (Float32.of_int batch_size))) 1)
         batch_size in
     forall subsampled,
       subsample fraction random_uniform arguments = Ok subsampled ->
       forall name gathered,
         In (name, gathered) subsampled ->
         String.prefix "states" name = false ->
         name <> "horizons" ->
         exists x,
           In (name, x) arguments /\ gather x indices = Ok gathered).
Proof.
  split.
  - intros Habs; unfold step, subsample.
    rewrite (getitem_absent _ _ Habs); reflexivity.
  - intros reward Hreward batch_size indices subsampled Hsub name g Hin
           Hprefix Hname.
    unfold subsample in Hsub; rewrite Hreward in Hsub; simpl in Hsub.
    fold batch_size in Hsub.
    change (sample_indices fraction random_uniform batch_size)
      with indices in Hsub.
    destruct (contains "states" arguments && contains "horizons" arguments).
    + destruct (subsample_states _ _ _) as [special|] eqn:Hspecial;
        simpl in Hsub; [|discriminate].
      destruct (subsample_others true arguments indices) as [others|]
        eqn:Hothers; simpl in Hsub; [|discriminate].
      inversion Hsub; subst; clear Hsub.
      apply in_app_or in Hin; destruct Hin as [Hin | Hin].
      * exfalso.
        destruct (subsample_states_entries _ _ _ _ Hspecial)
          as (ss & nh & -> & Hnames & _).
        apply in_app_or in Hin; destruct Hin as [Hin | [Hin | []]].
        -- assert (Hn : In name (map fst (subdict "states" arguments))).
           { rewrite <- Hnames; apply in_map_iff; exists (name, g); auto. }
           apply subdict_names in Hn; congruence.
        -- inversion Hin; subst; contradiction.
      * apply (subsample_others_entries _ _ _ _ Hothers _ _ Hin).
    + simpl in Hsub.
      destruct (subsample_others false arguments indices) as [others|]
        eqn:Hothers; simpl in Hsub; [|discriminate].
      inversion Hsub; subst; clear Hsub.
      apply (subsample_others_entries _ _ _ _ Hothers _ _ Hin).
Qed.

Lemma batch_size_taken_from_reward_witness :
  step Float32.one (fun n m => [0]) Z (fun _ => Ok 0)
       [("action", IntTensor [[3]; [4]])]
  = Raise (KeyError "reward").
Proof.
  apply (batch_size_taken_from_reward Float32.one (fun n m => [0]) Z
           (fun _ => Ok 0)
           [("action", IntTensor [[3]; [4]])]).
  intros x [H | []]; discriminate.
Defined.

(** For a fraction of [1.0] the whole batch is drawn, as long as the batch
    size is below [2 ** 24], where its conversion to float32 is exact. *)
Lemma num_samples_one (b : Z) :
  1 <= b < 2 ^ 24 -> num_samples Float32.one b = b.
Proof.
  intros Hb; destruct (of_int_exact b Hb) as (m & e & Hof & Hd & He & Hm).
  unfold num_samples; cbv zeta; rewrite Hof, mul_one by (assumption || lia).
  rewrite (to_int_exact m e b) by (assumption || lia).
  lia.
Qed.

(** The product of a fraction that is not below zero with the size of a
    batch is not below zero. *)
Lemma product_nonneg (fraction : Float32.t) (b : Z) (q : Q) :
  Float32.leb Float32.zero fraction = true -> 0 <= b ->
  Float32.value (Float32.mul fraction (Float32.of_int b)) = Some q ->
  (0 <= q)%Q.
Proof.
  intros Hf Hb; apply value_sign, mul_sign.
  - now apply leb_zero_sign.
  - now apply of_int_sign.
Qed.

(** C3 (as amended): for a batch of [batch_size >= 1] rows the step draws
    exactly [max(1, n)] indices, where [n] is the float32 product of the
    fraction and the batch size, cast to int64: for a fraction that is not
    below zero the product is not below zero, and below [2 ** 63] its cast
    is its floor (the fractional part is dropped, the product is not
    rounded to the nearest integer).  Every index is drawn with
    [maxval=batch_size], so with replacement, and the wrapped optimizer
    receives a minibatch in which every entry outside the states has that
    number of rows.  The size is at least 1, and equal to [batch_size] for
    a fraction of [1.0] and a batch size below [2 ** 24]. *)
Theorem minibatch_size_is_truncated_product
  (fraction : Float32.t) (random_uniform : Z -> Z -> list Z)
  (deltas : Type) (optimizer_step : TensorDict -> result deltas)
  (arguments : TensorDict) (reward : tensor) :
  getitem arguments "reward" = Ok reward ->
  1 <= shape0 reward ->
  let batch_size := shape0 reward in
  let product := Float32.mul fraction (Float32.of_int batch_size) in
  let n := Z.max 1 (Float32.to_int product) in
  List.length (random_uniform n batch_size) = Z.to_nat n ->
  num_samples fraction batch_size = n /\
  sample_indices fraction random_uniform batch_size
  = random_uniform n batch_size /\
  1 <= n /\
  (Float32.leb Float32.zero fraction = true ->
   forall q,
     Float32.value product = Some q ->
     (0 <= q)%Q /\
     ((q < inject_Z (2 ^ 63))%Q -> n = Z.max 1 (Qfloor q))) /\
  (fraction = Float32.one -> batch_size < 2 ^ 24 -> n = batch_size) /\
  (forall subsampled,
     subsample fraction random_uniform arguments = Ok subsampled ->
     step fraction random_uniform deltas optimizer_step arguments
     = optimizer_step subsampled /\
     forall name x,
       In (name, x) subsampled ->
       String.prefix "states" name = false ->
       shape0 x = n) /\
  (contains "states" arguments && contains "horizons" arguments = false ->
   Forall (fun entry => shape0 (snd entry) = batch_size) arguments ->
   Forall (fun i => 0 <= i < batch_size) (random_uniform n batch_size) ->
   exists subsampled,
     subsample fraction random_uniform arguments = Ok subsampled /\
     map fst subsampled = map fst arguments /\
     Forall (fun entry => shape0 (snd entry) = n) subsampled).
Proof.
  intros Hreward Hb batch_size product n Hlen.
  assert (Hb0 : 0 <= batch_size) by (unfold batch_size; lia).
  assert (Hn : num_samples fraction batch_size = n).
  { unfold num_samples, n, product; apply Z.max_comm. }
  assert (Hidx : sample_indices fraction random_uniform batch_size
                 = random_uniform n batch_size).
  { unfold sample_indices; rewrite Hn; reflexivity. }
  assert (Hrows : Z.of_nat (List.length (random_uniform n batch_size)) = n).
  { rewrite Hlen; unfold n; lia. }
  split; [exact Hn|]; split; [exact Hidx|]; split; [unfold n; lia|].
  split; [|split; [|split]].
  - intros Hsign q Hq.
    pose proof (product_nonneg fraction batch_size q Hsign Hb0 Hq) as Hpos.
    split; [exact Hpos|]; intros Hlt.
    apply (Qtruncate_below q (2 ^ 63) Hpos) in Hlt.
    pose proof (Qtruncate_nonneg q Hpos) as Htr.
    unfold n, Float32.to_int; rewrite Hq.
    rewrite to_int64_in_range by (unfold int64_min, int64_max; lia).
    rewrite Qtruncate_nonneg_floor
      by (unfold Qle in Hpos; simpl in Hpos; lia).
    reflexivity.
  - intros Hone Hsmall; rewrite <- Hn; subst fraction.
    apply num_samples_one; fold batch_size in Hb; lia.
  - intros subsampled Hsub; split.
    + unfold step; rewrite Hsub; reflexivity.
    + intros name x Hin Hprefix.
      unfold subsample in Hsub; rewrite Hreward in Hsub; simpl in Hsub.
      fold batch_size in Hsub; rewrite Hidx in Hsub.
      destruct (contains "states" arguments
                && contains "horizons" arguments).
      * destruct (subsample_states _ _ _) as [special|] eqn:Hspecial;
          simpl in Hsub; [|discriminate].
        destruct (subsample_others true arguments _) as [others|]
          eqn:Hothers; simpl in Hsub; [|discriminate].
        inversion Hsub; subst subsampled; clear Hsub.
        apply in_app_or in Hin; destruct Hin as [Hin | Hin].
        -- destruct (subsample_states_entries _ _ _ _ Hspecial)
             as (ss & nh & -> & Hnames & Hnh).
           apply in_app_or in Hin; destruct Hin as [Hin | [Hin | []]].
           ++ assert (Hname :
                        In name (map fst (subdict "states" arguments))).
              { rewrite <- Hnames; apply in_map_iff; exists (name, x);
                  auto. }
              apply subdict_names in Hname; congruence.
           ++ inversion Hin; subst; rewrite Hnh; exact Hrows.
        -- destruct (subsample_others_entries _ _ _ _ Hothers _ _ Hin)
             as (y & _ & Hg).
           rewrite (gather_shape0 _ _ _ Hg); exact Hrows.
      * simpl in Hsub.
        destruct (subsample_others false arguments _) as [others|]
          eqn:Hothers; simpl in Hsub; [|discriminate].
        inversion Hsub; subst subsampled; clear Hsub.
        destruct (subsample_others_entries _ _ _ _ Hothers _ _ Hin)
          as (y & _ & Hg).
        rewrite (gather_shape0 _ _ _ Hg); exact Hrows.
  - intros Hplain Hall Hrange.
    unfold subsample; rewrite Hreward, Hplain; simpl.
    fold batch_size; rewrite Hidx.
    destruct (subsample_others_plain arguments (random_uniform n batch_size))
      as (others & Hothers & Hnames).
    { apply Forall_forall; intros entry Hentry.
      rewrite Forall_forall in Hall; rewrite (Hall entry Hentry).
      exact Hrange. }
    rewrite Hothers; simpl; exists others; repeat split; [exact Hnames|].
    apply Forall_forall; intros [name x] Hin.
    destruct (subsample_others_entries _ _ _ _ Hothers _ _ Hin)
      as (y & _ & Hg).
    simpl; rewrite (gather_shape0 _ _ _ Hg); exact Hrows.
Qed.

(** The float nearest to 0.53 on a batch of 100 rows: the product is the
    float below 53 and 52 indices are drawn. *)
Lemma minibatch_size_is_truncated_product_witness :
  num_samples (SpecFloat.S754_finite false 8891924 (-24)) 100 = 52.
Proof.
  apply (minibatch_size_is_truncated_product
           (SpecFloat.S754_finite false 8891924 (-24))
           (fun n m => map (fun i => i mod m) (range n))
           Z (fun _ => Ok 0)
           [("reward", FloatTensor (repeat [1%Q] 100))]
           (FloatTensor (repeat [1%Q] 100)));
    try reflexivity; vm_compute; discriminate.
Defined.

(** The product is rounded to float32 before its fractional part is
    dropped: for the float nearest to 0.7 on a batch of 10 rows the exact
    product lies below 7, the float32 product is 7.0, and 7 indices are
    drawn. *)
Lemma product_is_rounded_before_truncation :
  let fraction := SpecFloat.S754_finite false 11744051 (-24) in
  Float32.value fraction = Some (11744051 # 16777216) /\
  Qfloor ((11744051 # 16777216) * inject_Z 10) = 6 /\
  (exists q,
     Float32.value (Float32.mul fraction (Float32.of_int 10)) = Some q /\
     (q == inject_Z 7)%Q) /\
  num_samples fraction 10 = 7.
Proof.
  cbv zeta; split; [reflexivity|]; split; [reflexivity|]; split.
  - eexists; split; [vm_compute; reflexivity | reflexivity].
  - reflexivity.
Qed.

(** C3 as stated fails: for a fraction of 0.75 and a batch of 5 rows the
    product 3.75 rounds to 4, and the step draws 3 indices and delegates a
    minibatch of 3 rows. *)
Lemma minibatch_size_is_not_rounded :
  let arguments := [("reward", FloatTensor [[1]; [2]; [3]; [4]; [5]]%Q)] in
  let uniform := fun n m => map (fun i => (2 * i) mod m) (range n) in
  let fraction := SpecFloat.S754_finite false 12582912 (-24) in
  (exists q, Float32.value fraction = Some q /\ (q == 3 # 4)%Q) /\
  spec_num_samples (3 # 4) 5 = 4 /\
  sample_indices fraction uniform 5 = [0; 2; 4] /\
  step fraction uniform TensorDict (fun subsampled => Ok subsampled)
       arguments
  = Ok [("reward", FloatTensor [[1]; [3]; [5]]%Q)] /\
  List.length (sample_indices fraction uniform 5)
  <> Z.to_nat (spec_num_samples (3 # 4) 5).
Proof.
  cbv zeta; split; [eexists; split; reflexivity|].
  repeat split; vm_compute; discriminate.
Qed.

Lemma fold_left_append {A B : Type} (f : B -> list A) (l : list B) :
  forall init,
    fold_left (fun acc h => acc ++ f h) l init = init ++ flat_map f l.
Proof.
  induction l as [|h l IH]; intros init; simpl.
  - now rewrite app_nil_r.
  - now rewrite IH, app_assoc.
Qed.

Lemma range_from_single (i : Z) : range_from i (i + 1) = [i].
Proof.
  unfold range_from; replace (i + 1 - i) with 1 by lia; simpl.
  now rewrite Z.add_0_r.
Qed.

Lemma forallb_single_step (hs : list (Z * Z)) :
  Forall (fun h => snd h = 1) hs ->
  forallb (fun h => snd h =? 1) hs = true.
Proof.
  induction 1 as [|h hs Hh _ IH]; simpl; [reflexivity|].
  rewrite Hh, IH; reflexivity.
Qed.

(** Gathering the rows of single-step horizons whose offsets are their own
    positions gives back the indices, each with length one. *)
Lemma gather_rows_positions (hs : list (Z * Z)) (indices : list Z) :
  Forall (fun h => snd h = 1) hs ->
  (forall k h, nth_error hs k = Some h -> fst h = Z.of_nat k) ->
  forall gathered,
    gather_rows hs indices = Ok gathered ->
    gathered = map (fun i => (i, 1)) indices.
Proof.
  intros Hone Hpos; induction indices as [|i rest IH]; simpl;
    intros gathered H.
  - inversion H; reflexivity.
  - destruct (Z.ltb_spec i 0); [discriminate|].
    destruct (nth_error hs (Z.to_nat i)) as [[offset len]|] eqn:Hnth;
      [|discriminate].
    destruct (gather_rows hs rest) as [g|]; simpl in H; [|discriminate].
    inversion H; subst; clear H.
    rewrite (IH g eq_refl); f_equal.
    pose proof (Hpos _ _ Hnth) as Hoffset; simpl in Hoffset.
    rewrite Forall_forall in Hone.
    pose proof (Hone _ (nth_error_In _ _ Hnth)) as Hlen; simpl in Hlen.
    subst; f_equal; lia.
Qed.

Lemma expansion_of_positions (indices : list Z) :
  subsampled_states_indices (map (fun i => (i, 1)) indices) indices
  = indices.
Proof.
  unfold subsampled_states_indices; rewrite fold_left_append; simpl.
  induction indices as [|i rest IH]; simpl; [reflexivity|].
  rewrite range_from_single; simpl; f_equal; exact IH.
Qed.

Lemma getitem_contains (d : TensorDict) (key : string) (x : tensor) :
  getitem d key = Ok x -> contains key d = true.
Proof.
  intros H; apply getitem_In in H.
  unfold contains; apply existsb_exists; exists (key, x); split; [exact H|].
  unfold under; simpl; now rewrite String.eqb_refl.
Qed.

(** C5 (as amended): when every horizon has length 1, the states that the
    step stores are a direct gather of the states by the sampled indices;
    and when, in addition, the offset of every transition is its own
    position (the contiguous layout of single-step windows), the expansion
    path computes the same indices and so the same states. *)
Theorem single_step_horizons_gather_directly
  (fraction : Float32.t) (random_uniform : Z -> Z -> list Z)
  (arguments : TensorDict) (horizons : tensor) (hs : list (Z * Z)) :
  getitem arguments "horizons" = Ok horizons ->
  horizon_rows horizons = Ok hs ->
  Forall (fun h => snd h = 1) hs ->
  (forall subsampled,
     contains "states" arguments = true ->
     subsample fraction random_uniform arguments = Ok subsampled ->
     exists reward subsampled_states new_horizons others,
       getitem arguments "reward" = Ok reward /\
       fmap_gather (subdict "states" arguments)
         (sample_indices fraction random_uniform (shape0 reward))
       = Ok subsampled_states /\
       subsampled
       = subsampled_states ++ ("horizons", new_horizons) :: others) /\
  (forall states indices gathered,
     gather_rows hs indices = Ok gathered ->
     states_indices (forallb (fun h => snd h =? 1) hs) gathered indices
     = indices /\
     ((forall k h, nth_error hs k = Some h -> fst h = Z.of_nat k) ->
      subsampled_states_indices gathered indices = indices /\
      fmap_gather states (states_indices false gathered indices)
      = fmap_gather states (states_indices true gathered indices))).
Proof.
  intros Hget Hrows Hone; split.
  - intros subsampled Hstates H; unfold subsample in H.
    rewrite Hstates, (getitem_contains _ _ _ Hget) in H; simpl in H.
    destruct (getitem arguments "reward") as [reward|]; simpl in H;
      [|discriminate].
    unfold subsample_states in H.
    rewrite Hget in H; simpl in H; rewrite Hrows in H; simpl in H.
    rewrite (forallb_single_step hs Hone) in H.
    destruct (gather_rows hs _) as [g|]; simpl in H; [|discriminate].
    unfold states_indices in H.
    destruct (fmap_gather (subdict "states" arguments) _) as [ss|] eqn:Hss;
      simpl in H; [|discriminate].
    destruct (subsample_others true arguments _) as [others|]; simpl in H;
      [|discriminate].
    inversion H; subst; clear H.
    exists reward, ss; eexists; exists others; split; [reflexivity|].
    split; [exact Hss|].
    rewrite <- app_assoc; reflexivity.
  - intros states indices gathered Hg; split.
    + now rewrite (forallb_single_step hs Hone).
    + intros Hpos.
      rewrite (gather_rows_positions hs indices Hone Hpos gathered Hg).
      unfold states_indices; rewrite expansion_of_positions; auto.
Qed.

Lemma single_step_horizons_gather_directly_witness :
  subsampled_states_indices [(2, 1); (0, 1); (2, 1)] [2; 0; 2] = [2; 0; 2].
Proof.
  apply (single_step_horizons_gather_directly Float32.one
           (fun n m => [2; 0; 2])
           [("states", FloatTensor [[10]; [20]; [30]]%Q);
            ("horizons", IntTensor [[0; 1]; [1; 1]; [2; 1]]);
            ("reward", FloatTensor [[1]; [1]; [1]]%Q)]
           (IntTensor [[0; 1]; [1; 1]; [2; 1]])
           [(0, 1); (1, 1); (2, 1)]);
    try reflexivity.
  - repeat constructor.
  - exact [].
  - intros [|[|[|k]]] h H; simpl in H; inversion H; subst; try reflexivity.
    destruct k; discriminate.
Defined.

(** C5 as stated fails: all horizons have length 1, yet the expansion path
    reads the offsets, and when an offset is not the position of its
    transition the two paths gather different states. *)
Lemma shortcut_differs_from_expansion :
  let arguments :=
    [("states", FloatTensor [[10]; [20]]%Q);
     ("horizons", IntTensor [[1; 1]; [0; 1]]);
     ("reward", FloatTensor [[5]; [6]]%Q)] in
  let uniform := fun (n m : Z) => [0] in
  horizon_rows (IntTensor [[1; 1]; [0; 1]]) = Ok [(1, 1); (0, 1)] /\
  subsample (SpecFloat.S754_finite false 8388608 (-24)) uniform arguments
  = Ok [("states", FloatTensor [[10]]%Q);
        ("horizons", IntTensor [[0; 1]]);
        ("reward", FloatTensor [[5]]%Q)] /\
  gather_rows [(1, 1); (0, 1)] [0] = Ok [(1, 1)] /\
  fmap_gather (subdict "states" arguments)
    (states_indices false [(1, 1)] [0])
  = Ok [("states", FloatTensor [[20]]%Q)] /\
  fmap_gather (subdict "states" arguments)
    (states_indices false [(1, 1)] [0])
  <> fmap_gather (subdict "states" arguments)
       (states_indices true [(1, 1)] [0]).
Proof.
  cbv zeta; repeat split; vm_compute; discriminate.
Qed.

End SubsamplingStepProperties.

(** ** Evolutionary *)

Section EvolutionaryProperties.

Import Evolutionary.

Local Open Scope string_scope.
Local Open Scope list_scope.
Local Open Scope Z_scope.

Variable reference : Type.
Variable fn_reference : list tensor -> reference.
Variable fn_comparative_loss : reference -> list tensor -> tfloat.
Variable normal : nat -> nat -> nat -> Qc.

Lemma zip_with_map {A B C D : Type} (op : B -> C -> D)
  (f : A -> B) (g : A -> C) (l : list A) :
  zip_with op (map f l) (map g l) = map (fun x => op (f x) (g x)) l.
Proof.
  induction l as [|x l IH]; simpl; [reflexivity | now rewrite IH].
Qed.

Lemma assign_add_map (f : tensor -> tensor) (vars : list tensor) :
  assign_add vars (map f vars)
  = map (fun variable => zip_with tadd variable (f variable)) vars.
Proof.
  induction vars as [|v vars IH]; simpl; [reflexivity | now rewrite IH].
Qed.

Lemma tadd_NaN (x : tfloat) : tadd x NaN = NaN.
Proof. destruct x; reflexivity. Qed.

Lemma zip_with_tadd_NaN (variable : tensor) :
  zip_with tadd variable (map (fun _ => NaN) variable)
  = map (fun _ => NaN) variable.
Proof.
  induction variable as [|x v IH]; simpl; [reflexivity|].
  now rewrite tadd_NaN, IH.
Qed.

Lemma zero_sum_divided_by_zero (vars : list tensor) :
  map (map (fun cell => tdiv cell (cast_float 0))) (map zeros_like vars)
  = map (map (fun _ => NaN)) vars.
Proof.
  rewrite map_map; apply map_ext; intros v.
  unfold zeros_like; rewrite map_map; reflexivity.
Qed.

Lemma NaN_minus_zeros (vars : list tensor) :
  zip_with (zip_with tsub) (map (map (fun _ => NaN)) vars)
           (map zeros_like vars)
  = map (map (fun _ => NaN)) vars.
Proof.
  rewrite zip_with_map; apply map_ext; intros v.
  unfold zeros_like; rewrite zip_with_map; reflexivity.
Qed.

Lemma assign_add_NaN (vars : list tensor) :
  assign_add vars (map (map (fun _ => NaN)) vars)
  = map (map (fun _ => NaN)) vars.
Proof.
  rewrite assign_add_map; apply map_ext; intros v.
  apply zip_with_tadd_NaN.
Qed.

(** The loop over zero samples leaves the loop variables as they are. *)
Lemma loop_zero (f : nat -> list tensor * list tensor * list tensor ->
                       list tensor * list tensor * list tensor)
  (state : list tensor * list tensor * list tensor) :
  loop f 0 state = state.
Proof. reflexivity. Qed.

(** With [unroll_loop=True] the call raises for every number of samples
    and every learning rate: the statement after the loop reads the local
    name [num_samples], which only the other branch assigns. *)
Lemma unrolled_step_raises
  (lr : tfloat) (n : Z) (vars : list tensor) :
  step reference fn_reference fn_comparative_loss normal
       {| learning_rate := lr; unroll_loop := true; self_num_samples := n |}
       vars
  = Raise (UnboundLocalError "num_samples").
Proof.
  unfold step, sampling; cbn [unroll_loop].
  destruct (loop _ _ _) as [[ds prev] vars']; reflexivity.
Qed.

(** C4: with zero samples and the dynamic loop, every cell of the returned
    deltas is NaN (the zero sum divided by the sample count 0.0) and every
    cell of the variables is NaN after the call; a variable holding 1.0
    does not keep its value and its delta is not 0.0. *)
Theorem zero_samples_step_yields_nan (lr : tfloat) (vars : list tensor) :
  let self :=
    {| learning_rate := lr; unroll_loop := false; self_num_samples := 0 |} in
  step reference fn_reference fn_comparative_loss normal self vars
  = Ok (map (map (fun _ => NaN)) vars, map (map (fun _ => NaN)) vars) /\
  step reference fn_reference fn_comparative_loss normal self [[Fin 1%Qc]]
  = Ok ([[NaN]], [[NaN]]) /\
  step reference fn_reference fn_comparative_loss normal self [[Fin 1%Qc]]
  <> Ok ([[Fin 0%Qc]], [[Fin 1%Qc]]).
Proof.
  assert (Hgen : forall vs,
             step reference fn_reference fn_comparative_loss normal
               {| learning_rate := lr; unroll_loop := false;
                  self_num_samples := 0 |} vs
             = Ok (map (map (fun _ => NaN)) vs,
                   map (map (fun _ => NaN)) vs)).
  { intros vs; unfold step, sampling; cbn [unroll_loop self_num_samples].
    rewrite loop_zero.
    cbn [deltas perturbations num_samples variables read bind].
    rewrite zero_sum_divided_by_zero, NaN_minus_zeros, assign_add_NaN.
    reflexivity. }
  cbv zeta; split; [apply Hgen|]; split.
  - rewrite Hgen; reflexivity.
  - rewrite Hgen; simpl; discriminate.
Qed.

End EvolutionaryProperties.

(** *** Tensors cell by cell *)

Section TabulateLemmas.

Import Evolutionary.
Local Open Scope list_scope.

Lemma tabulate_zip {A B C : Type} (op : A -> B -> C)
  (f : nat -> nat -> A) (g : nat -> nat -> B) (sizes : list nat) :
  forall j0,
    zip_with (zip_with op) (tabulate f j0 sizes) (tabulate g j0 sizes)
    = tabulate (fun j e => op (f j e) (g j e)) j0 sizes.
Proof.
  induction sizes as [|n rest IH]; intros j0; simpl; [reflexivity|].
  now rewrite zip_with_map, IH.
Qed.

Lemma tabulate_map {A B : Type} (h : A -> B) (f : nat -> nat -> A)
  (sizes : list nat) :
  forall j0,
    map (map h) (tabulate f j0 sizes)
    = tabulate (fun j e => h (f j e)) j0 sizes.
Proof.
  induction sizes as [|n rest IH]; intros j0; simpl; [reflexivity|].
  now rewrite map_map, IH.
Qed.

Lemma tabulate_ext_from {A : Type} (f g : nat -> nat -> A)
  (sizes : list nat) :
  forall j0,
    (forall j e, (j0 <= j)%nat -> f j e = g j e) ->
    tabulate f j0 sizes = tabulate g j0 sizes.
Proof.
  induction sizes as [|n rest IH]; intros j0 H; simpl; [reflexivity|].
  f_equal.
  - apply map_ext; intros e; apply H; lia.
  - apply IH; intros j e Hj; apply H; lia.
Qed.

Lemma tabulate_ext {A : Type} (f g : nat -> nat -> A) (sizes : list nat)
  (j0 : nat) :
  (forall j e, f j e = g j e) -> tabulate f j0 sizes = tabulate g j0 sizes.
Proof.
  intros H; apply tabulate_ext_from; intros; apply H.
Qed.

Lemma map_nth_seq {A : Type} (d : A) (l : list A) :
  map (fun e => nth e l d) (seq 0 (List.length l)) = l.
Proof.
  induction l as [|a l IH]; simpl; [reflexivity|].
  f_equal; rewrite <- seq_shift, map_map; exact IH.
Qed.

Lemma tabulate_cells {A : Type} (d : A) (vars : list (list A)) :
  forall j0,
    tabulate (fun j e => nth e (nth (j - j0) vars []) d) j0
             (map (@List.length A) vars)
    = vars.
Proof.
  induction vars as [|v vars IH]; intros j0; simpl; [reflexivity|].
  f_equal.
  - rewrite Nat.sub_diag; apply map_nth_seq.
  - rewrite <- (IH (S j0)) at 2; apply tabulate_ext_from; intros j e Hj.
    replace (j - j0)%nat with (S (j - S j0)) by lia; reflexivity.
Qed.

Lemma assign_add_tabulate (f g : nat -> nat -> tfloat) (sizes : list nat) :
  forall j0,
    assign_add (tabulate f j0 sizes) (tabulate g j0 sizes)
    = tabulate (fun j e => tadd (f j e) (g j e)) j0 sizes.
Proof.
  induction sizes as [|n rest IH]; intros j0; simpl; [reflexivity|].
  now rewrite zip_with_map, IH.
Qed.

Lemma zeros_like_tabulate (f : nat -> nat -> tfloat) (sizes : list nat) :
  forall j0,
    map zeros_like (tabulate f j0 sizes)
    = tabulate (fun _ _ => Fin 0%Qc) j0 sizes.
Proof.
  induction sizes as [|n rest IH]; intros j0; simpl; [reflexivity|].
  unfold zeros_like at 1; now rewrite map_map, IH.
Qed.

Lemma accumulate_tabulate (h : tfloat -> tfloat)
  (f g : nat -> nat -> tfloat) (sizes : list nat) :
  forall j0,
    zip_with (fun delta perturbation =>
                zip_with tadd delta (map h perturbation))
             (tabulate f j0 sizes) (tabulate g j0 sizes)
    = tabulate (fun j e => tadd (f j e) (h (g j e))) j0 sizes.
Proof.
  induction sizes as [|n rest IH]; intros j0; simpl; [reflexivity|].
  now rewrite map_map, zip_with_map, IH.
Qed.

Lemma draw_tabulate (normal : nat -> nat -> nat -> Qc)
  (scale : tfloat -> tfloat) (k : nat)
  (f : nat -> nat -> tfloat) (sizes : list nat) :
  forall j0,
    draw normal scale k j0 (tabulate f j0 sizes)
    = tabulate (fun j e => scale (Fin (normal k j e))) j0 sizes.
Proof.
  induction sizes as [|n rest IH]; intros j0; simpl; [reflexivity|].
  unfold random_normal; now rewrite length_map, length_seq, map_map, IH.
Qed.

Lemma perturbation_tabulate (normal : nat -> nat -> nat -> Qc) (rate : Qc)
  (k : nat) (f : nat -> nat -> Qc) (sizes : list nat) :
  forall j0,
    perturbation_from normal rate k j0 (tabulate f j0 sizes)
    = tabulate (fun j e => (rate * normal k j e)%Qc) j0 sizes.
Proof.
  induction sizes as [|n rest IH]; intros j0; simpl; [reflexivity|].
  now rewrite length_map, length_seq, IH.
Qed.

End TabulateLemmas.

(** *** The dynamic loop: the net effect of a call *)

Section DynamicLoop.

Import Evolutionary.
Local Open Scope list_scope.

Variable reference : Type.
Variable fn_reference : list tensor -> reference.
Variable fn_comparative_loss : reference -> list tensor -> tfloat.
Variable normal : nat -> nat -> nat -> Qc.
Variable loss : list (list Qc) -> Qc.
Variable rate : Qc.
Variable vars : list (list Qc).

Let sizes : list nat := map (@List.length Qc) vars.
Let V (j e : nat) : Qc := nth e (nth j vars []) 0%Qc.
Let P (k j e : nat) : Qc := (rate * normal k j e)%Qc.
Let dir : nat -> Qc := direction loss normal rate vars.
Let ref : reference := fn_reference (inject vars).
Let cells (f : nat -> nat -> Qc) : list tensor :=
  tabulate (fun j e => Fin (f j e)) 0 sizes.

Hypothesis loss_exact :
  forall vs, fn_comparative_loss ref (inject vs) = Fin (loss vs).

Lemma vars_cells : tabulate V 0 sizes = vars.
Proof.
  transitivity
    (tabulate (fun j e => nth e (nth (j - 0) vars []) 0%Qc) 0 sizes).
  - apply tabulate_ext; intros j e; unfold V; now rewrite Nat.sub_0_r.
  - apply tabulate_cells.
Qed.

Lemma inject_cells (f : nat -> nat -> Qc) :
  inject (tabulate f 0 sizes) = cells f.
Proof. apply tabulate_map. Qed.

Lemma perturbed_cells (k : nat) :
  vadd vars (perturbation normal rate k vars)
  = tabulate (fun j e => (V j e + P k j e)%Qc) 0 sizes.
Proof.
  unfold vadd, perturbation.
  rewrite <- vars_cells at 1 2.
  rewrite perturbation_tabulate; apply tabulate_zip.
Qed.

Lemma tsign_Fin (a : Qc) : tsign (Fin a) = Fin (Qcsign a).
Proof. unfold tsign, Qcsign; destruct (a ?= 0)%Qc; reflexivity. Qed.

Lemma body_cells (k : nat) (D Q X : nat -> nat -> Qc) :
  body reference fn_comparative_loss normal (Fin rate) ref
       (Fin (loss vars)) k (cells D, cells Q, cells X)
  = (cells (fun j e =>
              D j e
              + Qcsign (loss vars
                        - loss (tabulate
                                  (fun j e => X j e + (P k j e - Q j e))
                                  0 sizes))
                * P k j e)%Qc,
     cells (P k),
     cells (fun j e => X j e + (P k j e - Q j e))%Qc).
Proof.
  unfold body, iteration, cells.
  rewrite draw_tabulate, tabulate_zip, assign_add_tabulate.
  change (tabulate
            (fun j e =>
               tadd (Fin (X j e))
                    (tsub (tmul (Fin rate) (Fin (normal k j e)))
                          (Fin (Q j e)))) 0 sizes)
    with (cells (fun j e => X j e + (P k j e - Q j e))%Qc).
  rewrite <- inject_cells, loss_exact.
  change (tsub (Fin (loss vars))
               (Fin (loss (tabulate
                             (fun j e => X j e + (P k j e - Q j e))%Qc
                             0 sizes))))
    with (Fin (loss vars
               - loss (tabulate
                         (fun j e => X j e + (P k j e - Q j e))%Qc
                         0 sizes))%Qc).
  rewrite tsign_Fin, accumulate_tabulate, inject_cells.
  reflexivity.
Qed.

Lemma loop_cells (m : nat) :
  fold_left
    (fun st k =>
       body reference fn_comparative_loss normal (Fin rate) ref
            (Fin (loss vars)) k st)
    (seq 0 m)
    (cells (fun _ _ => 0%Qc), cells (fun _ _ => 0%Qc), cells V)
  = (cells (weighted_cell dir P m),
     cells (applied_cell P m),
     cells (fun j e => V j e + applied_cell P m j e)%Qc).
Proof.
  induction m as [|m IH].
  - cbn [seq fold_left]; f_equal.
    unfold cells; apply tabulate_ext; intros j e; f_equal; simpl; ring.
  - rewrite seq_S, fold_left_app, IH; cbn [fold_left Nat.add].
    rewrite body_cells.
    assert (Hpert :
              tabulate
                (fun j e =>
                   V j e + applied_cell P m j e
                   + (P m j e - applied_cell P m j e))%Qc 0 sizes
              = vadd vars (perturbation normal rate m vars)).
    { rewrite perturbed_cells; apply tabulate_ext; intros j e; ring. }
    rewrite Hpert; f_equal.
    unfold cells; apply tabulate_ext; intros j e; f_equal; simpl; ring.
Qed.

Lemma vadd_vars_cells (f : nat -> nat -> Qc) :
  vadd vars (tabulate f 0 sizes)
  = tabulate (fun j e => V j e + f j e)%Qc 0 sizes.
Proof.
  unfold vadd; rewrite <- vars_cells at 1; apply tabulate_zip.
Qed.

Lemma inject_vars : inject vars = cells V.
Proof. rewrite <- vars_cells at 1; apply inject_cells. Qed.

Lemma weighted_sum_cells (m : nat) :
  weighted_sum loss normal rate m vars
  = tabulate (weighted_cell dir P m) 0 sizes.
Proof.
  induction m as [|m IH]; simpl.
  - rewrite <- vars_cells at 1; rewrite tabulate_map; reflexivity.
  - rewrite IH; unfold perturbation.
    rewrite <- vars_cells at 2.
    rewrite perturbation_tabulate, tabulate_map.
    unfold vadd; apply tabulate_zip.
Qed.

Lemma averaged_delta_cells (m : nat) :
  averaged_delta loss normal rate m vars
  = tabulate (fun j e =>
                weighted_cell dir P m j e
                / Q2Qc (inject_Z (Z.of_nat m)))%Qc 0 sizes.
Proof.
  unfold averaged_delta; rewrite weighted_sum_cells; apply tabulate_map.
Qed.

Lemma cast_float_positive (n : Z) :
  1 <= n -> (Q2Qc (inject_Z n) ?= 0)%Qc = Gt.
Proof.
  intros Hn; apply Qcgt_alt; unfold Qclt.
  change (0 < Qred (inject_Z n))%Q.
  rewrite Qred_correct; unfold Qlt; simpl; lia.
Qed.

Lemma tdiv_cast_float (a : Qc) (n : Z) :
  1 <= n -> tdiv (Fin a) (cast_float n) = Fin (a / Q2Qc (inject_Z n))%Qc.
Proof.
  intros Hn; unfold tdiv, cast_float.
  now rewrite (cast_float_positive n Hn).
Qed.

Lemma sampling_cells (n : Z) :
  sampling reference fn_reference fn_comparative_loss normal
    {| learning_rate := Fin rate; unroll_loop := false;
       self_num_samples := n |} (inject vars)
  = {| deltas := cells (weighted_cell dir P (Z.to_nat n));
       previous_perturbations := cells (fun _ _ => 0%Qc);
       perturbations := Some (cells (applied_cell P (Z.to_nat n)));
       num_samples := Some n;
       variables :=
         cells (fun j e => V j e + applied_cell P (Z.to_nat n) j e)%Qc |}.
Proof.
  unfold sampling; cbn [unroll_loop self_num_samples learning_rate].
  fold ref; rewrite loss_exact, inject_vars.
  assert (Hzeros : map zeros_like (cells V) = cells (fun _ _ => 0%Qc))
    by apply zeros_like_tabulate.
  rewrite Hzeros; unfold loop; rewrite loop_cells; reflexivity.
Qed.

(** The dynamic-loop branch, for at least one sample: the call returns the
    averaged sign-weighted delta and leaves every variable at its initial
    value plus that delta. *)
Lemma dynamic_loop_net_effect (n : Z) :
  1 <= n ->
  let self :=
    {| learning_rate := Fin rate; unroll_loop := false;
       self_num_samples := n |} in
  let averaged := averaged_delta loss normal rate (Z.to_nat n) vars in
  step reference fn_reference fn_comparative_loss normal self (inject vars)
  = Ok (inject averaged, inject (vadd vars averaged)).
Proof.
  intros Hn self averaged; unfold step, self; rewrite sampling_cells.
  cbn [deltas perturbations num_samples variables read bind].
  unfold cells; rewrite tabulate_map, tabulate_zip, assign_add_tabulate.
  unfold averaged; rewrite averaged_delta_cells, vadd_vars_cells.
  rewrite !inject_cells; unfold cells.
  rewrite Z2Nat.id by lia.
  apply f_equal; apply f_equal2; apply tabulate_ext; intros j e;
    rewrite (tdiv_cast_float _ n Hn); [reflexivity|].
  simpl; f_equal; ring.
Qed.

(** *** What the sampling loop leaves behind, and calls that change
    nothing *)

Lemma weighted_cell_vanishes (d : nat -> Qc) (p : nat -> nat -> nat -> Qc)
  (m j e : nat) :
  (forall k, (d k * p k j e)%Qc = 0%Qc) -> weighted_cell d p m j e = 0%Qc.
Proof.
  intros H; induction m as [|m IH]; simpl; [reflexivity|].
  rewrite IH, H; ring.
Qed.

Lemma zeros_cells :
  tabulate (fun _ _ => 0%Qc) 0 sizes = map (map (fun _ => 0%Qc)) vars.
Proof.
  rewrite <- vars_cells at 1; rewrite tabulate_map; reflexivity.
Qed.

(** When every term of the weighted sum vanishes, a call with at least one
    sample returns zero deltas and restores the variables. *)
Lemma vanishing_terms_no_op (n : Z) :
  1 <= n ->
  (forall k j e, (dir k * P k j e)%Qc = 0%Qc) ->
  step reference fn_reference fn_comparative_loss normal
    {| learning_rate := Fin rate; unroll_loop := false;
       self_num_samples := n |} (inject vars)
  = Ok (inject (map (map (fun _ => 0%Qc)) vars), inject vars).
Proof.
  intros Hn Hterms; rewrite (dynamic_loop_net_effect n Hn); cbv zeta.
  assert (Havg : averaged_delta loss normal rate (Z.to_nat n) vars
                 = map (map (fun _ => 0%Qc)) vars).
  { rewrite averaged_delta_cells, <- zeros_cells.
    apply tabulate_ext; intros j e.
    rewrite (weighted_cell_vanishes dir P _ j e)
      by (intros k; apply Hterms).
    unfold Qcdiv; ring. }
  rewrite Havg; do 2 f_equal.
  rewrite <- zeros_cells, vadd_vars_cells.
  rewrite <- vars_cells at 1.
  f_equal; apply tabulate_ext; intros j e; ring.
Qed.

(** X7: ties change nothing, under exact arithmetic.  When no perturbation
    changes the comparative loss (every perturbed loss equals the
    unperturbed loss), a call with at least one sample returns zero deltas
    and, the additions and subtractions of the perturbations being exact,
    leaves every variable at its initial value.  (In single precision the
    deltas are zero all the same; the variables return to their initial
    values only up to the rounding of the in-place updates.) *)
Theorem constant_loss_step_is_no_op (n : Z) :
  1 <= n ->
  (forall vs, loss vs = loss vars) ->
  step reference fn_reference fn_comparative_loss normal
    {| learning_rate := Fin rate; unroll_loop := false;
       self_num_samples := n |} (inject vars)
  = Ok (inject (map (map (fun _ => 0%Qc)) vars), inject vars).
Proof.
  intros Hn Hconst; apply vanishing_terms_no_op; [exact Hn|].
  intros k j e; unfold dir, direction.
  rewrite (Hconst (vadd vars (perturbation normal rate k vars))).
  replace (loss vars - loss vars)%Qc with 0%Qc by ring.
  change (Qcsign 0%Qc) with 0%Qc; ring.
Qed.

(** X8: a zero learning rate changes nothing.  With [learning_rate = 0.0]
    and at least one sample, whatever the loss and the draws are, the call
    returns zero deltas and leaves every variable at its initial value. *)
Theorem zero_learning_rate_step_is_no_op (n : Z) :
  1 <= n ->
  rate = 0%Qc ->
  step reference fn_reference fn_comparative_loss normal
    {| learning_rate := Fin rate; unroll_loop := false;
       self_num_samples := n |} (inject vars)
  = Ok (inject (map (map (fun _ => 0%Qc)) vars), inject vars).
Proof.
  intros Hn Hrate; apply vanishing_terms_no_op; [exact Hn|].
  intros k j e; unfold P; rewrite Hrate; ring.
Qed.

(** X9: the telescoping update, under exact arithmetic.  After the sampling
    loop of at least one sample and before the final correction, the
    additions and subtractions being exact, the variables hold their
    initial value plus the last perturbation only (the earlier ones have
    been taken back), the loop hands that last perturbation on, and the
    accumulated deltas are the sign-weighted sum of all perturbations. *)
Theorem sampling_leaves_last_perturbation (n : Z) :
  1 <= n ->
  let env :=
    sampling reference fn_reference fn_comparative_loss normal
      {| learning_rate := Fin rate; unroll_loop := false;
         self_num_samples := n |} (inject vars) in
  let last := perturbation normal rate (Z.to_nat (n - 1)) vars in
  variables env = inject (vadd vars last) /\
  perturbations env = Some (inject last) /\
  deltas env = inject (weighted_sum loss normal rate (Z.to_nat n) vars).
Proof.
  intros Hn; cbv zeta; rewrite sampling_cells.
  cbn [variables perturbations deltas].
  replace (Z.to_nat n) with (S (Z.to_nat (n - 1))) by lia.
  cbn [applied_cell].
  rewrite perturbed_cells, weighted_sum_cells, !inject_cells.
  unfold perturbation.
  rewrite <- vars_cells at 1.
  rewrite perturbation_tabulate, inject_cells.
  repeat split.
Qed.

End DynamicLoop.

(** C1: the net effect of a call depends on the branch.  With
    [unroll_loop=True] every call raises [UnboundLocalError]: the statement
    after the loop reads the local name [num_samples], which only the
    dynamic-loop branch assigns.  With [unroll_loop=False], at least one
    sample and exact arithmetic, the call returns the averaged
    sign-weighted delta and every variable ends at its initial value plus
    that delta. *)
Theorem step_net_effect_by_branch
  (reference : Type)
  (fn_reference : list Evolutionary.tensor -> reference)
  (fn_comparative_loss :
     reference -> list Evolutionary.tensor -> Evolutionary.tfloat)
  (normal : nat -> nat -> nat -> Qc)
  (loss : list (list Qc) -> Qc) (rate : Qc) (vars : list (list Qc))
  (n : Z) :
  (forall lr vs,
     Evolutionary.step reference fn_reference fn_comparative_loss normal
       {| Evolutionary.learning_rate := lr;
          Evolutionary.unroll_loop := true;
          Evolutionary.self_num_samples := n |} vs
     = Raise (UnboundLocalError "num_samples")) /\
  (1 <= n ->
   (forall vs,
      fn_comparative_loss (fn_reference (Evolutionary.inject vars))
        (Evolutionary.inject vs)
      = Evolutionary.Fin (loss vs)) ->
   let averaged :=
     Evolutionary.averaged_delta loss normal rate (Z.to_nat n) vars in
   Evolutionary.step reference fn_reference fn_comparative_loss normal
     {| Evolutionary.learning_rate := Evolutionary.Fin rate;
        Evolutionary.unroll_loop := false;
        Evolutionary.self_num_samples := n |}
     (Evolutionary.inject vars)
   = Ok (Evolutionary.inject averaged,
         Evolutionary.inject (Evolutionary.vadd vars averaged))).
Proof.
  split.
  - intros lr vs; apply unrolled_step_raises.
  - intros Hn Hloss; apply dynamic_loop_net_effect; assumption.
Qed.

(** A loss that reads one cell of the first variable, to instantiate
    [step_net_effect_by_branch]: three samples on two variables. *)
Lemma step_net_effect_by_branch_witness :
  let first (vs : list Evolutionary.tensor) : Evolutionary.tfloat :=
    match vs with
    | (x :: _) :: _ => x
    | _ => Evolutionary.Fin 0%Qc
    end in
  let loss (vs : list (list Qc)) : Qc :=
    match vs with
    | (x :: _) :: _ => x
    | _ => 0%Qc
    end in
  let normal (k j e : nat) : Qc :=
    Q2Qc (inject_Z (Z.of_nat (k + j)) - inject_Z (Z.of_nat e)) in
  let vars := [[Q2Qc 1; Q2Qc 2]; [Q2Qc 3]] in
  let averaged :=
    Evolutionary.averaged_delta loss normal (Q2Qc (1 # 10)) 3 vars in
  Evolutionary.step unit (fun _ => tt) (fun _ vs => first vs) normal
    {| Evolutionary.learning_rate := Evolutionary.Fin (Q2Qc (1 # 10));
       Evolutionary.unroll_loop := false;
       Evolutionary.self_num_samples := 3 |}
    (Evolutionary.inject vars)
  = Ok (Evolutionary.inject averaged,
        Evolutionary.inject (Evolutionary.vadd vars averaged)).
Proof.
  cbv zeta.
  apply (step_net_effect_by_branch unit (fun _ => tt)
           (fun _ vs => match vs with
                        | (x :: _) :: _ => x
                        | _ => Evolutionary.Fin 0%Qc
                        end)
           _
           (fun vs => match vs with
                      | (x :: _) :: _ => x
                      | _ => 0%Qc
                      end)
           (Q2Qc (1 # 10)) [[Q2Qc 1; Q2Qc 2]; [Q2Qc 3]] 3).
  - lia.
  - intros [|[|x v] vs]; reflexivity.
Defined.

(** ** OrnsteinUhlenbeck: further properties *)

Section OrnsteinUhlenbeckFurther.

Import OrnsteinUhlenbeck.


(** One request without noise and without the absolute value moves the
    process toward [mu] by the factor [1 - theta]. *)
Lemma noiseless_request (self : t) (process z : Q) :
  absolute self = false -> (sigma self == 0)%Q ->
  (fst (parameter_value self process z) - mu self
   == (1 - theta self) * (process - mu self))%Q.
Proof.
  intros Habs Hsigma; unfold parameter_value; rewrite Habs; cbn [fst].
  rewrite Hsigma; ring.
Qed.

(** X1: mean reversion.  Without the absolute value and with [sigma = 0],
    after the request at position [i] of any sequence the distance of the
    process to [mu] is [(1 - theta) ** (i + 1)] times the distance at the
    start, whatever the draws are. *)
Theorem noiseless_mean_reversion (self : t) (normals : list Q) :
  absolute self = false -> (sigma self == 0)%Q ->
  forall (process : Q) (i : nat) (step : Q * number),
    nth_error (requests self process normals) i = Some step ->
    (fst step - mu self == decay self (S i) * (process - mu self))%Q.
Proof.
  intros Habs Hsigma; induction normals as [|z rest IH];
    intros process i step Hnth.
  - destruct i; discriminate.
  - simpl in Hnth; destruct i as [|i]; simpl in Hnth.
    + inversion Hnth; subst; clear Hnth.
      rewrite (noiseless_request self process z Habs Hsigma).
      simpl; ring.
    + rewrite (IH _ _ _ Hnth).
      rewrite (noiseless_request self process z Habs Hsigma).
      simpl; ring.
Qed.

Lemma noiseless_mean_reversion_witness :
  let self := {| theta := 1 # 2; sigma := 0; mu := 1;
                 absolute := false; spec_type := Float |} in
  exists step,
    nth_error (requests self 9 [5; -(7); 3]%Q) 2 = Some step /\
    (fst step - 1 == decay self 3 * (9 - 1))%Q.
Proof.
  cbv zeta; eexists; split; [reflexivity|].
  apply (noiseless_mean_reversion
           {| theta := 1 # 2; sigma := 0; mu := 1;
              absolute := false; spec_type := Float |}
           [5; -(7); 3]%Q eq_refl (Qeq_refl 0) 9%Q 2%nat _ eq_refl).
Defined.





Lemma number_le_zero (d : dtype) (x : Q) :
  (0 <= x)%Q ->
  d = Float \/ (x < inject_Z (2 ^ 63))%Q ->
  number_le (py_type d 0) (cast x d).
Proof.
  intros Hx Hcase; destruct (cast_of_nonneg x d Hx) as [Hfloat Hint].
  destruct d.
  - rewrite (Hfloat eq_refl); exact Hx.
  - destruct Hcase as [Hd | Hlt]; [discriminate|].
    destruct (proj1 (Hint eq_refl) Hlt) as [Heq Hpos].
    rewrite Heq in *; exact Hpos.
Qed.

(** X3: the declared lower bound and its reach.  With [absolute=True],
    whatever [min_value()] returns is a lower bound of every value that
    [parameter_value] returns for a float parameter, and for an int
    parameter as long as the process stays below [2 ** 63], for every
    sequence of requests and draws. *)
Theorem min_value_bounds_returned_values
  (self : t) (normals : list Q) (base : option number) (bound : number) :
  absolute self = true ->
  min_value base self = Some bound ->
  spec_type self = Float
  \/ Forall (fun step => (fst step < inject_Z (2 ^ 63))%Q)
            (run self normals) ->
  Forall (fun step => number_le bound (snd step)) (run self normals).
Proof.
  intros Habs Hmin Hcase; unfold min_value in Hmin; rewrite Habs in Hmin.
  inversion Hmin; subst bound; clear Hmin.
  pose proof (requests_absolute self normals Habs (mu self)) as Hall.
  unfold run in *.
  assert (Hreach :
            Forall (fun step =>
                      spec_type self = Float
                      \/ (fst step < inject_Z (2 ^ 63))%Q)
                   (requests self (mu self) normals)).
  { destruct Hcase as [Hfloat | Hbelow].
    - apply Forall_forall; intros step _; left; exact Hfloat.
    - revert Hbelow; apply Forall_impl; intros step H; right; exact H. }
  clear Hcase; induction Hall as [|step rest [Hpos Hcast] _ IH].
  - constructor.
  - inversion Hreach; subst; constructor; [|apply IH; assumption].
    rewrite Hcast; apply number_le_zero; assumption.
Qed.

Lemma min_value_bounds_returned_values_witness :
  let self := {| theta := 15 # 100; sigma := 3 # 10; mu := -(2);
                 absolute := true; spec_type := Int |} in
  Forall (fun step => number_le (NInt 0) (snd step))
         (run self [1; -(40); 6]%Q).
Proof.
  cbv zeta.
  apply (min_value_bounds_returned_values
           {| theta := 15 # 100; sigma := 3 # 10; mu := -(2);
              absolute := true; spec_type := Int |}
           [1; -(40); 6]%Q None (NInt 0));
    try reflexivity.
  right; repeat constructor.
Defined.

End OrnsteinUhlenbeckFurther.

(** ** AutoNetwork: further properties *)

Section AutoNetworkFurther.

Import AutoNetwork.

Local Open Scope string_scope.
Local Open Scope list_scope.
Local Open Scope Z_scope.

(** The pipeline of an input begins with the retrieve of that input and
    ends with the register of its embedding. *)
Lemma state_layers_ends (size depth : Z) (input_name : string)
  (spec : TensorSpec) (pipeline : list layer) :
  state_layers size depth input_name spec = Ok pipeline ->
  retrieved pipeline = Some (PyTuple [PyStr input_name]) /\
  registered pipeline = Some (PyStr (input_name ++ "-embedding")%string).
Proof.
  unfold state_layers; rewrite shape_specific_by_embedded_rank.
  destruct (spec_table (embedded_rank spec)) as [[pre layer]|];
    cbn [bind fst snd]; [|discriminate].
  intros H; inversion H; subst pipeline; clear H; split.
  - destruct (requires_embedding spec); destruct (_ >? _); reflexivity.
  - unfold registered; rewrite last_last; reflexivity.
Qed.

Lemma inputs_layers_ends (size depth : Z)
  (inputs_spec : list (string * TensorSpec)) :
  forall pipelines,
    inputs_layers size depth inputs_spec = Ok pipelines ->
    Forall2 (fun entry pipeline =>
               retrieved pipeline = Some (PyTuple [PyStr (fst entry)]) /\
               registered pipeline
               = Some (PyStr (fst entry ++ "-embedding")%string))
            inputs_spec pipelines.
Proof.
  induction inputs_spec as [|[name spec] rest IH]; simpl;
    intros pipelines H.
  - inversion H; constructor.
  - destruct (state_layers size depth name spec) as [p|] eqn:Hp;
      simpl in H; [|discriminate].
    destruct (inputs_layers size depth rest) as [ps|]; simpl in H;
      [|discriminate].
    inversion H; subst; constructor; [|apply IH; reflexivity].
    apply (state_layers_ends _ _ _ _ _ Hp).
Qed.

(** X4: the pipelines fit together.  When construction succeeds, pipeline
    [i] retrieves input [i] and registers a tensor as its last layer, and
    the tensors that the merge pipeline retrieves are exactly the tensors
    registered by the input pipelines, in the order of the inputs. *)
Theorem merge_retrieves_registered_embeddings
  (size depth : Z) (final_size : option Z) (final_depth : Z) (rnn : pyobj)
  (inputs_spec : list (string * TensorSpec)) (layers : list (list layer)) :
  __init__ size depth final_size final_depth rnn inputs_spec = Ok layers ->
  exists pipelines final keys,
    layers = pipelines ++ [final] /\
    Forall2 (fun entry pipeline =>
               retrieved pipeline = Some (PyTuple [PyStr (fst entry)]))
            inputs_spec pipelines /\
    map registered pipelines = map Some keys /\
    retrieved final = Some (PyTuple keys).
Proof.
  intros H; unfold __init__ in H.
  destruct (inputs_layers size depth inputs_spec) as [ps|] eqn:Hps;
    simpl in H; [|discriminate].
  inversion H; subst layers; clear H.
  pose proof (inputs_layers_ends _ _ _ _ Hps) as Hends.
  exists ps; eexists.
  exists (map (fun entry => PyStr (fst entry ++ "-embedding")%string)
              inputs_spec).
  split; [reflexivity|]; split; [|split].
  - clear Hps; induction Hends as [|e p es ps' [Hr _] _ IH]; constructor;
      assumption.
  - clear Hps; induction Hends as [|e p es ps' [_ Hg] _ IH]; simpl;
      [reflexivity|].
    now rewrite Hg, IH.
  - unfold final_layers, retrieved.
    destruct (_ >? _); destruct (is_not_False rnn); reflexivity.
Qed.

Lemma merge_retrieves_registered_embeddings_witness :
  exists pipelines final keys,
    [[[("type", PyStr "retrieve"); ("name", PyStr "x_retrieve");
       ("tensors", PyTuple [PyStr "x"])];
      [("type", PyStr "dense"); ("name", PyStr "x_dense0");
       ("size", PyInt 8)];
      [("type", PyStr "register"); ("name", PyStr "x_register");
       ("tensor", PyStr "x-embedding")]];
     [[("type", PyStr "retrieve"); ("name", PyStr "retrieve");
       ("tensors", PyTuple [PyStr "x-embedding"]);
       ("aggregation", PyStr "concat")]]]
    = pipelines ++ [final] /\
    Forall2 (fun entry pipeline =>
               retrieved pipeline = Some (PyTuple [PyStr (fst entry)]))
            [("x", {| type := type_float; shape := [4] |})] pipelines /\
    map registered pipelines = map Some keys /\
    retrieved final = Some (PyTuple keys).
Proof.
  apply (merge_retrieves_registered_embeddings 8 1 None 3 (PyBool false)
           [("x", {| type := type_float; shape := [4] |})]).
  reflexivity.
Defined.

(** X5: the error that construction raises is the rank error of the first
    input, in the order of [inputs_spec], whose rank after embedding
    exceeds 3; later inputs are not looked at. *)
Theorem first_unsupported_input_raises
  (size depth : Z) (final_size : option Z) (final_depth : Z) (rnn : pyobj)
  (before after : list (string * TensorSpec))
  (input_name : string) (spec : TensorSpec) :
  Forall (fun entry => embedded_rank (snd entry) <= 3) before ->
  3 < embedded_rank spec ->
  __init__ size depth final_size final_depth rnn
    (before ++ (input_name, spec) :: after)
  = Raise (TensorforceError_value "AutoNetwork" "input rank"
             (PyInt (rank spec)) None (Some ">= 3")).
Proof.
  intros Hbefore Hspec; unfold __init__.
  assert (H : inputs_layers size depth
                (before ++ (input_name, spec) :: after)
              = Raise (rank_error spec)).
  { induction Hbefore as [|[n sp] rest Hle _ IH]; simpl.
    - pose proof (state_layers_by_embedded_rank size depth input_name spec)
        as Hone.
      assert (Hnone : spec_table (embedded_rank spec) = None).
      { apply spec_table_none; [apply embedded_rank_nonneg | exact Hspec]. }
      rewrite Hnone in Hone; rewrite Hone; reflexivity.
    - destruct (proj2 (state_layers_ok_iff size depth n sp) Hle)
        as [p ->]; simpl.
      rewrite IH; reflexivity. }
  rewrite H; reflexivity.
Qed.

Lemma first_unsupported_input_raises_witness :
  __init__ 64 2 None 1 (PyBool false)
    [("a", {| type := type_float; shape := [3] |});
     ("b", {| type := type_int; shape := [2; 2; 2] |});
     ("c", {| type := type_float; shape := [1; 1; 1; 1; 1] |})]
  = Raise (TensorforceError_value "AutoNetwork" "input rank"
             (PyInt 3) None (Some ">= 3")).
Proof.
  apply (first_unsupported_input_raises 64 2 None 1 (PyBool false)
           [("a", {| type := type_float; shape := [3] |})]
           [("c", {| type := type_float; shape := [1; 1; 1; 1; 1] |})]
           "b" {| type := type_int; shape := [2; 2; 2] |}).
  - repeat constructor; simpl; discriminate.
  - reflexivity.
Defined.

End AutoNetworkFurther.

(** *** Layer names are unique *)

From Stdlib Require DecimalPos DecimalN Finite.

Section AutoNetworkNames.

Import AutoNetwork.

Local Open Scope string_scope.
Local Open Scope list_scope.
Local Open Scope Z_scope.

Lemma no_underscore_append (a b : string) :
  no_underscore (a ++ b)%string <-> no_underscore a /\ no_underscore b.
Proof.
  induction a as [|c a IH]; simpl; [tauto|].
  rewrite IH; tauto.
Qed.

Lemma no_underscore_digits (d : Decimal.uint) :
  no_underscore (NilEmpty.string_of_uint d).
Proof.
  induction d; simpl; try exact I; (split; [|assumption]);
    intros H; vm_compute in H; discriminate.
Qed.

Lemma no_underscore_str (n : Z) : no_underscore (str n).
Proof.
  unfold str, NilZero.string_of_uint.
  destruct (N.to_uint (Z.to_N n)) eqn:Hd;
    try (rewrite <- Hd; apply no_underscore_digits).
  simpl; split; [|exact I]; intros H; vm_compute in H; discriminate.
Qed.

Lemma append_prefix_inj (p a b : string) :
  (p ++ a)%string = (p ++ b)%string -> a = b.
Proof.
  induction p as [|c p IH]; simpl; intros H; [exact H|].
  inversion H; auto.
Qed.

Lemma to_uint_nonnil (n : N) : N.to_uint n <> Decimal.Nil.
Proof.
  destruct n as [|p]; simpl; [discriminate|].
  apply DecimalPos.Unsigned.to_uint_nonnil.
Qed.

Lemma str_inj (n m : Z) : 0 <= n -> 0 <= m -> str n = str m -> n = m.
Proof.
  unfold str; intros Hn Hm H.
  assert (Hd : N.to_uint (Z.to_N n) = N.to_uint (Z.to_N m)).
  { pose proof (NilZero.usu _ (to_uint_nonnil (Z.to_N n))) as H1.
    pose proof (NilZero.usu _ (to_uint_nonnil (Z.to_N m))) as H2.
    rewrite H in H1; congruence. }
  apply DecimalN.Unsigned.to_uint_inj in Hd; lia.
Qed.

Lemma range_nonneg (k n : Z) : In n (range k) -> 0 <= n.
Proof.
  unfold range; intros H; apply in_map_iff in H.
  destruct H as (i & <- & _); lia.
Qed.

Lemma NoDup_range (k : Z) : NoDup (range k).
Proof.
  unfold range; apply Finite.Injective_map_NoDup; [|apply seq_NoDup].
  intros a b H; lia.
Qed.

(** The numbered names of a repeated layer are pairwise distinct. *)
Lemma NoDup_numbered (layer : string) (k : Z) :
  NoDup (map (fun n => (layer ++ str n)%string) (range k)).
Proof.
  apply Finite.Injective_map_NoDup_in; [|apply NoDup_range].
  intros n m Hn Hm H; apply append_prefix_inj in H.
  apply str_inj; eauto using range_nonneg.
Qed.

(** A name [x_suffix] determines [x] and the suffix, when the suffix has
    no underscore. *)
Lemma underscore_split (x y s t : string) :
  no_underscore s -> no_underscore t ->
  (x ++ "_" ++ s)%string = (y ++ "_" ++ t)%string -> x = y /\ s = t.
Proof.
  intros Hs Ht; revert y; induction x as [|c x IH]; intros [|c' y];
    simpl; intros H.
  - inversion H; auto.
  - inversion H; subst s; simpl in Hs.
    apply no_underscore_append in Hs; simpl in Hs.
    destruct Hs as [_ [Hc _]]; exfalso; apply Hc; reflexivity.
  - inversion H; subst t; simpl in Ht.
    apply no_underscore_append in Ht; simpl in Ht.
    destruct Ht as [_ [Hc _]]; exfalso; apply Hc; reflexivity.
  - inversion H; subst; destruct (IH _ H2); subst; auto.
Qed.

Lemma has_underscore (x s : string) :
  ~ no_underscore (x ++ "_" ++ s)%string.
Proof.
  intros H; apply no_underscore_append in H; simpl in H.
  destruct H as [_ [Hc _]]; apply Hc; reflexivity.
Qed.

Lemma spec_table_cases (r : Z) (pre : list string) (layer : string) :
  spec_table r = Some (pre, layer) ->
  (pre = ["flatten"] /\ layer = "dense") \/
  (pre = [] /\ (layer = "dense" \/ layer = "conv1d" \/ layer = "conv2d")).
Proof.
  unfold spec_table.
  destruct (r =? 0); [intros H; inversion H; auto|].
  destruct (r =? 1); [intros H; inversion H; auto|].
  destruct (r =? 2); [intros H; inversion H; auto|].
  destruct (r =? 3); [intros H; inversion H; auto | discriminate].
Qed.

Lemma NoDup_suffixes (A B : list string) (layer : string) (k : Z) :
  NoDup A -> NoDup B -> (forall a, In a A -> ~ In a B) ->
  (forall n, ~ In (layer ++ str n)%string A) ->
  (forall n, ~ In (layer ++ str n)%string B) ->
  NoDup (A ++ map (fun n => (layer ++ str n)%string) (range k) ++ B).
Proof.
  intros HA HB HAB HlA HlB.
  apply NoDup_app; [exact HA | apply NoDup_app |].
  - apply NoDup_numbered.
  - exact HB.
  - intros a Ha; apply in_map_iff in Ha; destruct Ha as (n & <- & _).
    apply HlB.
  - intros a Ha Hin; apply in_app_or in Hin; destruct Hin as [Hin | Hin].
    + apply in_map_iff in Hin; destruct Hin as (n & <- & _).
      exact (HlA n Ha).
    + exact (HAB a Ha Hin).
Qed.

Ltac distinct_strings :=
  simpl in *; intuition (subst; try discriminate);
  repeat match goal with
         | H : _ = _ |- _ => simpl in H; discriminate H
         end.

Ltac plain_string :=
  repeat split; intros Hc; vm_compute in Hc; discriminate Hc.

Lemma Forall_numbered (layer : string) (k : Z) :
  no_underscore layer ->
  Forall no_underscore (map (fun n => (layer ++ str n)%string) (range k)).
Proof.
  intros Hl; apply Forall_forall; intros s Hs.
  apply in_map_iff in Hs; destruct Hs as (n & <- & _).
  apply no_underscore_append; split; [exact Hl | apply no_underscore_str].
Qed.

(** The names of the layers of one input pipeline: the input name, an
    underscore, and pairwise distinct suffixes without underscore. *)
Lemma state_layers_names (size depth : Z) (input_name : string)
  (spec : TensorSpec) (pipeline : list layer) :
  state_layers size depth input_name spec = Ok pipeline ->
  exists suffixes,
    map (lookup "name") pipeline
    = map (fun s => Some (PyStr (input_name ++ "_" ++ s)%string)) suffixes /\
    Forall no_underscore suffixes /\
    NoDup suffixes.
Proof.
  unfold state_layers; rewrite shape_specific_by_embedded_rank.
  destruct (spec_table (embedded_rank spec)) as [[pre layer]|] eqn:Htable;
    cbn [bind fst snd]; [|discriminate].
  intros H; inversion H; subst pipeline; clear H.
  set (k := depth - int_of_bool (requires_embedding spec)).
  exists ((["retrieve"]
             ++ (if requires_embedding spec then ["embedding"] else [])
             ++ pre)
            ++ map (fun n => (layer ++ str n)%string) (range k)
            ++ ((if Z.of_nat (List.length (shape spec))
                    >? 1 - int_of_bool (requires_embedding spec)
                 then ["pooling"] else [])
                  ++ ["register"])).
  apply spec_table_cases in Htable.
  split; [|split].
  - destruct (requires_embedding spec); destruct (_ >? _);
      rewrite ?map_app, ?map_map, <- ?app_assoc; reflexivity.
  - assert (Hlayer : no_underscore layer).
    { destruct Htable as [[_ ->] | [_ [-> | [-> | ->]]]]; plain_string. }
    assert (Hpre : Forall no_underscore pre).
    { destruct Htable as [[-> _] | [-> _]]; repeat constructor;
        plain_string. }
    repeat (apply Forall_app; split);
      try (apply Forall_numbered; exact Hlayer);
      try exact Hpre;
      try (destruct (requires_embedding spec));
      try (destruct (_ >? _));
      repeat constructor; plain_string.
  - apply NoDup_suffixes;
      destruct Htable as [[-> ->] | [-> [-> | [-> | ->]]]];
      destruct (requires_embedding spec); try destruct (_ >? _);
      try (repeat constructor; distinct_strings; fail);
      try (intros n; distinct_strings; fail);
      try (intros a; distinct_strings; fail).
Qed.

Lemma final_layers_names (final_size final_depth : Z) (rnn : pyobj)
  (inputs_spec : list (string * TensorSpec)) :
  exists names,
    map (lookup "name") (final_layers final_size final_depth rnn inputs_spec)
    = map (fun s => Some (PyStr s)) names /\
    Forall no_underscore names /\
    NoDup names.
Proof.
  unfold final_layers.
  exists (["retrieve"]
            ++ map (fun n => ("dense" ++ str n)%string)
                   (if Z.of_nat (List.length inputs_spec) >? 1
                    then range final_depth else [])
            ++ (if is_not_False rnn then ["lstm"] else [])).
  split; [|split].
  - destruct (_ >? _); destruct (is_not_False rnn);
      rewrite ?map_app, ?map_map, <- ?app_assoc; cbn [map];
      rewrite ?app_nil_r; reflexivity.
  - repeat (apply Forall_app; split).
    + repeat constructor; plain_string.
    + apply Forall_forall; intros s Hs.
      apply in_map_iff in Hs; destruct Hs as (n & <- & _).
      apply no_underscore_append; split;
        [plain_string | apply no_underscore_str].
    + destruct (is_not_False rnn); repeat constructor; plain_string.
  - assert (Hdense : NoDup (map (fun n => ("dense" ++ str n)%string)
                                (if Z.of_nat (List.length inputs_spec) >? 1
                                 then range final_depth else []))).
    { destruct (_ >? _); [apply NoDup_numbered | constructor]. }
    apply NoDup_app; [repeat constructor; distinct_strings | |].
    + apply NoDup_app; [exact Hdense | |].
      * destruct (is_not_False rnn); repeat constructor; distinct_strings.
      * intros a Ha Hb; apply in_map_iff in Ha.
        destruct Ha as (n & <- & _).
        destruct (is_not_False rnn); distinct_strings.
    + intros a [<- | []] Hin; apply in_app_or in Hin.
      destruct Hin as [Hin | Hin].
      * apply in_map_iff in Hin; destruct Hin as (n & Hn & _).
        simpl in Hn; discriminate.
      * destruct (is_not_False rnn); distinct_strings.
Qed.

Lemma inputs_layers_names (size depth : Z)
  (inputs_spec : list (string * TensorSpec)) :
  NoDup (map fst inputs_spec) ->
  forall pipelines,
    inputs_layers size depth inputs_spec = Ok pipelines ->
    exists names,
      map (lookup "name") (List.concat pipelines)
      = map (fun s => Some (PyStr s)) names /\
      NoDup names /\
      Forall (fun s => exists x suffix,
                  In x (map fst inputs_spec) /\ no_underscore suffix /\
                  s = (x ++ "_" ++ suffix)%string)
             names.
Proof.
  induction inputs_spec as [|[x spec] rest IH]; simpl;
    intros Hnodup pipelines H.
  - inversion H; subst; exists []; repeat split; constructor.
  - destruct (state_layers size depth x spec) as [p|] eqn:Hp; simpl in H;
      [|discriminate].
    destruct (inputs_layers size depth rest) as [ps|] eqn:Hps; simpl in H;
      [|discriminate].
    inversion H; subst pipelines; clear H.
    inversion Hnodup as [|? ? Hx Hrest]; subst.
    destruct (state_layers_names _ _ _ _ _ Hp)
      as (suffixes & Hnames & Hplain & Hdistinct).
    destruct (IH Hrest ps eq_refl) as (names & Hrnames & Hrdistinct & Hrall).
    exists (map (fun s => (x ++ "_" ++ s)%string) suffixes ++ names).
    split; [|split].
    + simpl; rewrite !map_app, Hnames, Hrnames, map_map; reflexivity.
    + apply NoDup_app.
      * apply Finite.Injective_map_NoDup; [|exact Hdistinct].
        intros a b Hab; apply append_prefix_inj in Hab.
        now inversion Hab.
      * exact Hrdistinct.
      * intros a Ha Hin; apply in_map_iff in Ha.
        destruct Ha as (s & <- & Hs).
        rewrite Forall_forall in Hrall, Hplain.
        destruct (Hrall _ Hin) as (y & t & Hy & Ht & Heq).
        destruct (underscore_split _ _ _ _ (Hplain _ Hs) Ht Heq)
          as [-> _].
        contradiction.
    + apply Forall_app; split.
      * apply Forall_forall; intros a Ha; apply in_map_iff in Ha.
        destruct Ha as (s & <- & Hs); rewrite Forall_forall in Hplain.
        exists x, s; repeat split; [now left | auto].
      * eapply Forall_impl; [|exact Hrall].
        intros a (y & t & Hy & Ht & Heq); exists y, t; repeat split;
          [now right | assumption | assumption].
Qed.

(** X6: no two layers of the network share a name.  When the input names
    are pairwise distinct and construction succeeds, the names of all
    layers, of all input pipelines and of the merge pipeline, are pairwise
    distinct. *)
Theorem layer_names_are_distinct
  (size depth : Z) (final_size : option Z) (final_depth : Z) (rnn : pyobj)
  (inputs_spec : list (string * TensorSpec)) (layers : list (list layer)) :
  NoDup (map fst inputs_spec) ->
  __init__ size depth final_size final_depth rnn inputs_spec = Ok layers ->
  NoDup (layer_names layers) /\
  Forall (fun name => exists s, name = Some (PyStr s)) (layer_names layers).
Proof.
  intros Hnodup H; unfold __init__ in H.
  destruct (inputs_layers size depth inputs_spec) as [ps|] eqn:Hps;
    simpl in H; [|discriminate].
  inversion H; subst layers; clear H.
  destruct (inputs_layers_names _ _ _ Hnodup ps Hps)
    as (names & Hnames & Hdistinct & Hall).
  destruct (final_layers_names
              (match final_size with None => size | Some given => given end)
              final_depth rnn inputs_spec)
    as (fnames & Hfnames & Hfplain & Hfdistinct).
  assert (Heq : layer_names
                  (ps ++ [final_layers
                            (match final_size with
                             | None => size
                             | Some given => given
                             end) final_depth rnn inputs_spec])
                = map (fun s => Some (PyStr s)) (names ++ fnames)).
  { unfold layer_names; rewrite concat_app; simpl; rewrite app_nil_r.
    now rewrite !map_app, Hnames, Hfnames. }
  rewrite Heq; split.
  - apply Finite.Injective_map_NoDup.
    + intros a b Hab; congruence.
    + apply NoDup_app; try assumption.
      intros a Ha Hin; rewrite Forall_forall in Hall, Hfplain.
      destruct (Hall _ Ha) as (x & t & _ & _ & ->).
      exact (has_underscore _ _ (Hfplain _ Hin)).
  - apply Forall_forall; intros name Hin; apply in_map_iff in Hin.
    destruct Hin as (s & <- & _); eauto.
Qed.

Lemma layer_names_are_distinct_witness :
  NoDup
    (layer_names
       [[[("type", PyStr "retrieve"); ("name", PyStr "x_retrieve");
          ("tensors", PyTuple [PyStr "x"])];
         [("type", PyStr "dense"); ("name", PyStr "x_dense0");
          ("size", PyInt 8)];
         [("type", PyStr "register"); ("name", PyStr "x_register");
          ("tensor", PyStr "x-embedding")]];
        [[("type", PyStr "retrieve"); ("name", PyStr "retrieve");
          ("tensors", PyTuple [PyStr "x-embedding"]);
          ("aggregation", PyStr "concat")]]]).
Proof.
  apply (layer_names_are_distinct 8 1 None 3 (PyBool false)
           [("x", {| type := type_float; shape := [4] |})]).
  - repeat constructor; simpl; tauto.
  - reflexivity.
Defined.

End AutoNetworkNames.

(** ** Evolutionary: further properties *)

Lemma constant_loss_step_is_no_op_witness :
  Evolutionary.step unit (fun _ => tt)
    (fun _ _ => Evolutionary.Fin (Q2Qc 5))
    (fun k j e => Q2Qc (inject_Z (Z.of_nat (k + j + e))))
    {| Evolutionary.learning_rate := Evolutionary.Fin (Q2Qc (1 # 4));
       Evolutionary.unroll_loop := false;
       Evolutionary.self_num_samples := 4 |}
    (Evolutionary.inject [[Q2Qc 1; Q2Qc 2]; [Q2Qc 3]])
  = Ok (Evolutionary.inject [[Q2Qc 0; Q2Qc 0]; [Q2Qc 0]],
        Evolutionary.inject [[Q2Qc 1; Q2Qc 2]; [Q2Qc 3]]).
Proof.
  apply (constant_loss_step_is_no_op unit (fun _ => tt)
           (fun _ _ => Evolutionary.Fin (Q2Qc 5)) _
           (fun _ => Q2Qc 5) (Q2Qc (1 # 4))
           [[Q2Qc 1; Q2Qc 2]; [Q2Qc 3]]).
  - intros vs; reflexivity.
  - lia.
  - intros vs; reflexivity.
Defined.

Lemma zero_learning_rate_step_is_no_op_witness :
  Evolutionary.step unit (fun _ => tt)
    (fun _ vs => match vs with
                 | (x :: _) :: _ => x
                 | _ => Evolutionary.Fin 0%Qc
                 end)
    (fun k j e => Q2Qc (inject_Z (Z.of_nat (k + j + e))))
    {| Evolutionary.learning_rate := Evolutionary.Fin 0%Qc;
       Evolutionary.unroll_loop := false;
       Evolutionary.self_num_samples := 2 |}
    (Evolutionary.inject [[Q2Qc 1; Q2Qc 2]; [Q2Qc 3]])
  = Ok (Evolutionary.inject [[Q2Qc 0; Q2Qc 0]; [Q2Qc 0]],
        Evolutionary.inject [[Q2Qc 1; Q2Qc 2]; [Q2Qc 3]]).
Proof.
  apply (zero_learning_rate_step_is_no_op unit (fun _ => tt)
           (fun _ vs => match vs with
                        | (x :: _) :: _ => x
                        | _ => Evolutionary.Fin 0%Qc
                        end)
           _
           (fun vs => match vs with
                      | (x :: _) :: _ => x
                      | _ => 0%Qc
                      end)
           0%Qc [[Q2Qc 1; Q2Qc 2]; [Q2Qc 3]]).
  - intros [|[|x v] vs]; reflexivity.
  - lia.
  - reflexivity.
Defined.

Lemma sampling_leaves_last_perturbation_witness :
  let loss (vs : list (list Qc)) : Qc :=
    match vs with
    | (x :: _) :: _ => x
    | _ => 0%Qc
    end in
  let normal (k j e : nat) : Qc := Q2Qc (inject_Z (Z.of_nat (k + j + e))) in
  let vars := [[Q2Qc 1; Q2Qc 2]; [Q2Qc 3]] in
  let env :=
    Evolutionary.sampling unit (fun _ => tt)
      (fun _ vs => match vs with
                   | (x :: _) :: _ => x
                   | _ => Evolutionary.Fin 0%Qc
                   end)
      normal
      {| Evolutionary.learning_rate := Evolutionary.Fin (Q2Qc (1 # 4));
         Evolutionary.unroll_loop := false;
         Evolutionary.self_num_samples := 3 |}
      (Evolutionary.inject vars) in
  let last := Evolutionary.perturbation normal (Q2Qc (1 # 4)) 2 vars in
  Evolutionary.variables env
  = Evolutionary.inject (Evolutionary.vadd vars last) /\
  Evolutionary.perturbations env = Some (Evolutionary.inject last) /\
  Evolutionary.deltas env
  = Evolutionary.inject
      (Evolutionary.weighted_sum loss normal (Q2Qc (1 # 4)) 3 vars).
Proof.
  cbv zeta.
  apply (sampling_leaves_last_perturbation unit (fun _ => tt)
           (fun _ vs => match vs with
                        | (x :: _) :: _ => x
                        | _ => Evolutionary.Fin 0%Qc
                        end)
           _
           (fun vs => match vs with
                      | (x :: _) :: _ => x
                      | _ => 0%Qc
                      end)
           (Q2Qc (1 # 4)) [[Q2Qc 1; Q2Qc 2]; [Q2Qc 3]]).
  - intros [|[|x v] vs]; reflexivity.
  - lia.
Defined.

Section EvolutionaryShapes.

Import Evolutionary.

Local Open Scope list_scope.

Variable reference : Type.
Variable fn_reference : list tensor -> reference.
Variable fn_comparative_loss : reference -> list tensor -> tfloat.
Variable normal : nat -> nat -> nat -> Qc.

Lemma shape_zip_with {A B C : Type} (f : A -> B -> C)
  (xs : list (list A)) :
  forall ys : list (list B),
    map (@List.length A) xs = map (@List.length B) ys ->
    map (@List.length C) (zip_with (zip_with f) xs ys)
    = map (@List.length A) xs.
Proof.
  induction xs as [|x xs IH]; intros [|y ys]; simpl; intros H;
    try reflexivity; try discriminate.
  inversion H; f_equal; [now apply length_zip_with | now apply IH].
Qed.

Lemma shape_assign_add (vars ds : list tensor) :
  map (@List.length tfloat) vars = map (@List.length tfloat) ds ->
  map (@List.length tfloat) (assign_add vars ds)
  = map (@List.length tfloat) vars.
Proof.
  revert ds; induction vars as [|v vars IH]; intros [|d ds]; simpl;
    intros H; try reflexivity; try discriminate.
  inversion H; f_equal; [now apply length_zip_with | now apply IH].
Qed.

Lemma shape_draw (scale : tfloat -> tfloat) (k : nat) (vars : list tensor) :
  forall j,
    map (@List.length tfloat) (draw normal scale k j vars)
    = map (@List.length tfloat) vars.
Proof.
  induction vars as [|v vars IH]; intros j; simpl; [reflexivity|].
  unfold random_normal; now rewrite !length_map, length_seq, IH.
Qed.

Lemma shape_map_map (f : tfloat -> tfloat) (vars : list tensor) :
  map (@List.length tfloat) (map (map f) vars)
  = map (@List.length tfloat) vars.
Proof.
  rewrite map_map; apply map_ext; intros v; apply length_map.
Qed.

Lemma shape_accumulate (h : tfloat -> tfloat) (ds : list tensor) :
  forall ps,
    map (@List.length tfloat) ds = map (@List.length tfloat) ps ->
    map (@List.length tfloat)
        (zip_with (fun delta perturbation =>
                     zip_with tadd delta (map h perturbation)) ds ps)
    = map (@List.length tfloat) ds.
Proof.
  induction ds as [|d ds IH]; intros [|p ps]; simpl; intros H;
    try reflexivity; try discriminate.
  inversion H; f_equal; [|now apply IH].
  apply length_zip_with; now rewrite length_map.
Qed.

(** Every iteration keeps the shapes of the loop variables and of the
    variables. *)
Lemma iteration_keeps_shapes (scale : tfloat -> tfloat) (ref : reference)
  (loss0 : tfloat) (k : nat) (sizes : list nat)
  (state : list tensor * list tensor * list tensor) :
  map (@List.length tfloat) (fst (fst state)) = sizes ->
  map (@List.length tfloat) (snd (fst state)) = sizes ->
  map (@List.length tfloat) (snd state) = sizes ->
  let state' := iteration reference fn_comparative_loss normal scale ref
                          loss0 k state in
  map (@List.length tfloat) (fst (fst state')) = sizes /\
  map (@List.length tfloat) (snd (fst state')) = sizes /\
  map (@List.length tfloat) (snd state') = sizes.
Proof.
  destruct state as [[ds prev] vs]; cbn [fst snd]; intros Hd Hp Hv.
  unfold iteration; cbn [fst snd].
  assert (Hdraw : map (@List.length tfloat) (draw normal scale k 0 vs)
                  = sizes) by (rewrite shape_draw; exact Hv).
  repeat split.
  - rewrite shape_accumulate; congruence.
  - exact Hdraw.
  - rewrite shape_assign_add; [exact Hv|].
    rewrite shape_zip_with; congruence.
Qed.

Lemma loop_keeps_shapes (scale : tfloat -> tfloat) (ref : reference)
  (loss0 : tfloat) (sizes : list nat) (ks : list nat) :
  forall state,
    map (@List.length tfloat) (fst (fst state)) = sizes ->
    map (@List.length tfloat) (snd (fst state)) = sizes ->
    map (@List.length tfloat) (snd state) = sizes ->
    let state' :=
      fold_left
        (fun st k => iteration reference fn_comparative_loss normal scale
                               ref loss0 k st) ks state in
    map (@List.length tfloat) (fst (fst state')) = sizes /\
    map (@List.length tfloat) (snd (fst state')) = sizes /\
    map (@List.length tfloat) (snd state') = sizes.
Proof.
  induction ks as [|k ks IH]; intros state Hd Hp Hv; simpl; [auto|].
  destruct (iteration_keeps_shapes scale ref loss0 k sizes state Hd Hp Hv)
    as (Hd' & Hp' & Hv').
  apply IH; assumption.
Qed.

Lemma shape_zeros (vars : list tensor) :
  map (@List.length tfloat) (map zeros_like vars)
  = map (@List.length tfloat) vars.
Proof.
  rewrite map_map; apply map_ext; intros v; apply length_map.
Qed.

(** X10: the returned deltas cover exactly the variables.  With the
    dynamic loop the call returns for every sample count, learning rate,
    loss and content of the variables (finite or not), and both the
    returned deltas and the variables afterwards have one tensor per
    variable with the same number of cells. *)
Theorem step_keeps_shapes (lr : tfloat) (n : Z) (vars : list tensor) :
  exists ds vars',
    step reference fn_reference fn_comparative_loss normal
      {| learning_rate := lr; unroll_loop := false; self_num_samples := n |}
      vars
    = Ok (ds, vars') /\
    map (@List.length tfloat) ds = map (@List.length tfloat) vars /\
    map (@List.length tfloat) vars' = map (@List.length tfloat) vars.
Proof.
  unfold step, sampling; cbn [unroll_loop self_num_samples learning_rate].
  unfold loop, body.
  pose proof
    (loop_keeps_shapes (fun x => tmul lr x) (fn_reference vars)
       (fn_comparative_loss (fn_reference vars) vars)
       (map (@List.length tfloat) vars) (seq 0 (Z.to_nat n))
       (map zeros_like vars, map zeros_like vars, vars)
       (shape_zeros vars) (shape_zeros vars) eq_refl) as Hloop.
  cbv zeta in Hloop.
  destruct (fold_left _ _ _) as [[ds perts] vs]; cbn [fst snd] in Hloop.
  destruct Hloop as (Hd & Hp & Hv).
  cbn [deltas perturbations num_samples variables read bind].
  eexists; eexists; split; [reflexivity|]; split.
  - rewrite shape_map_map; exact Hd.
  - rewrite shape_assign_add; [exact Hv|].
    rewrite shape_zip_with; rewrite shape_map_map; congruence.
Qed.

Lemma sign_mul_comm (a b : comparison) : sign_mul a b = sign_mul b a.
Proof. destruct a, b; reflexivity. Qed.

Lemma tmul_comm (x y : tfloat) : tmul x y = tmul y x.
Proof.
  destruct x, y; simpl; try reflexivity;
    try (f_equal; ring); try (now rewrite sign_mul_comm).
Qed.

Lemma draw_ext (s1 s2 : tfloat -> tfloat) (k : nat) (vars : list tensor) :
  (forall x, s1 x = s2 x) ->
  forall j, draw normal s1 k j vars = draw normal s2 k j vars.
Proof.
  intros H; induction vars as [|v vars IH]; intros j; simpl; [reflexivity|].
  rewrite IH; f_equal; apply map_ext; exact H.
Qed.

Lemma unrolled_body_is_body (lr : tfloat) (ref : reference) (loss0 : tfloat)
  (k : nat) (state : list tensor * list tensor * list tensor) :
  unrolled_body reference fn_comparative_loss normal lr ref loss0 k state
  = body reference fn_comparative_loss normal lr ref loss0 k state.
Proof.
  unfold unrolled_body, body, iteration.
  destruct state as [[ds prev] vs].
  rewrite (draw_ext (fun x => tmul x lr) (fun x => tmul lr x) k vs
             (fun x => tmul_comm x lr) 0).
  reflexivity.
Qed.

(** X11: the two loops compute the same.  For every sample count the
    unrolled [for] loop leaves the same accumulated deltas, the same last
    perturbation and the same content of the variables as the dynamic
    loop; of the local names read after the loop, [num_samples] is bound
    by the dynamic branch alone. *)
Theorem unrolled_loop_matches_dynamic_loop
  (lr : tfloat) (n : Z) (vars : list tensor) :
  let unrolled :=
    sampling reference fn_reference fn_comparative_loss normal
      {| learning_rate := lr; unroll_loop := true; self_num_samples := n |}
      vars in
  let dynamic :=
    sampling reference fn_reference fn_comparative_loss normal
      {| learning_rate := lr; unroll_loop := false; self_num_samples := n |}
      vars in
  deltas unrolled = deltas dynamic /\
  variables unrolled = variables dynamic /\
  Some (previous_perturbations unrolled) = perturbations dynamic /\
  num_samples unrolled = None /\
  num_samples dynamic = Some n.
Proof.
  cbv zeta; unfold sampling;
    cbn [unroll_loop self_num_samples learning_rate].
  assert (Hloop : forall state,
             loop (unrolled_body reference fn_comparative_loss normal lr
                     (fn_reference vars)
                     (fn_comparative_loss (fn_reference vars) vars))
                  n state
             = loop (body reference fn_comparative_loss normal lr
                       (fn_reference vars)
                       (fn_comparative_loss (fn_reference vars) vars))
                    n state).
  { intros state; unfold loop; revert state.
    induction (seq 0 (Z.to_nat n)) as [|k ks IH]; intros state; simpl;
      [reflexivity|].
    rewrite unrolled_body_is_body; apply IH. }
  rewrite Hloop.
  destruct (loop _ _ _) as [[ds perts] vs]; repeat split.
Qed.

End EvolutionaryShapes.

(** ** SubsamplingStep: further properties *)

Section SubsamplingStepFurther.

Import SubsamplingStep.

Local Open Scope string_scope.
Local Open Scope list_scope.
Local Open Scope Z_scope.

Lemma expansion_is_flat_map (gathered : list (Z * Z)) (indices : list Z) :
  subsampled_states_indices gathered indices
  = flat_map (fun h => range_from (fst h) (fst h + snd h)) gathered.
Proof.
  unfold subsampled_states_indices; now rewrite fold_left_append.
Qed.

Lemma length_range_from (start len : Z) :
  List.length (range_from start (start + len)) = Z.to_nat len.
Proof.
  unfold range_from; rewrite length_map, length_seq; f_equal; lia.
Qed.

Lemma length_windows (gathered : list (Z * Z)) :
  Forall (fun h => 0 <= snd h) gathered ->
  List.length
    (flat_map (fun h => range_from (fst h) (fst h + snd h)) gathered)
  = Z.to_nat (total (map snd gathered)) /\
  0 <= total (map snd gathered).
Proof.
  induction 1 as [|h hs Hh _ [IHlen IHpos]]; simpl; [split; [reflexivity|lia]|].
  rewrite length_app, length_range_from, IHlen; split; lia.
Qed.

Lemma nth_error_cumsum (xs : list Z) :
  forall acc i x,
    nth_error xs i = Some x ->
    nth_error (cumsum_exclusive_from acc xs) i
    = Some (acc + total (firstn i xs)).
Proof.
  induction xs as [|y xs IH]; intros acc i x H; [destruct i; discriminate|].
  destruct i as [|i]; simpl.
  - f_equal; lia.
  - simpl in H; rewrite (IH (acc + y) i x H); f_equal; lia.
Qed.

(** X12: the recomputed horizons address the expanded windows.  On the
    expansion path (some horizon is longer than one step), for gathered
    horizons with non-negative lengths, the step gathers the states by the
    expanded index list and stores the horizons [(offset, length)] with
    recomputed offsets; the expanded list has as many entries as the
    lengths sum to, and for every sampled transition the recomputed offset
    is the sum of the lengths before it and the window it opens in the
    expanded list is exactly the original window
    [h[0], h[0] + h[1]) of that transition. *)
Theorem recomputed_horizons_address_windows
  (arguments states : TensorDict) (horizons : tensor)
  (hs gathered : list (Z * Z)) (indices : list Z) :
  getitem arguments "horizons" = Ok horizons ->
  horizon_rows horizons = Ok hs ->
  forallb (fun h => snd h =? 1) hs = false ->
  gather_rows hs indices = Ok gathered ->
  Forall (fun h => 0 <= snd h) gathered ->
  let expanded := subsampled_states_indices gathered indices in
  let lengths := map snd gathered in
  let offsets := cumsum_exclusive lengths in
  subsample_states arguments states indices
  = (subsampled_states <- fmap_gather states expanded ;;
     Ok (subsampled_states
           ++ [("horizons",
                IntTensor (zip_with (fun offset length => [offset; length])
                                    offsets lengths))])) /\
  List.length expanded = Z.to_nat (total lengths) /\
  List.length offsets = List.length gathered /\
  forall i h,
    nth_error gathered i = Some h ->
    nth_error offsets i = Some (total (map snd (firstn i gathered))) /\
    firstn (Z.to_nat (snd h))
           (skipn (Z.to_nat (total (map snd (firstn i gathered)))) expanded)
    = range_from (fst h) (fst h + snd h).
Proof.
  intros Hget Hrows Hmany Hgather Hpos; cbv zeta; split.
  { unfold subsample_states; rewrite Hget; simpl; rewrite Hrows; simpl.
    rewrite Hmany, Hgather; reflexivity. }
  rewrite expansion_is_flat_map.
  split; [apply (length_windows gathered Hpos)|]; split.
  - unfold cumsum_exclusive; now rewrite length_cumsum_exclusive_from,
      length_map.
  - intros i h Hnth; split.
    + unfold cumsum_exclusive.
      rewrite (nth_error_cumsum (map snd gathered) 0 i (snd h)).
      * now rewrite firstn_map.
      * now rewrite nth_error_map, Hnth.
    + destruct (nth_error_split gathered i Hnth) as (pre & post & Heq & Hi).
      subst gathered i.
      rewrite firstn_app, Nat.sub_diag, firstn_all; simpl firstn.
      rewrite app_nil_r.
      apply Forall_app in Hpos; destruct Hpos as [Hpre Hrest].
      destruct (length_windows pre Hpre) as [Hlen _].
      rewrite flat_map_app, <- Hlen, skipn_app, skipn_all, Nat.sub_diag.
      simpl; rewrite <- (length_range_from (fst h) (snd h)) at 1.
      rewrite firstn_app, Nat.sub_diag, firstn_all; simpl.
      now rewrite app_nil_r.
Qed.

Lemma recomputed_horizons_address_windows_witness :
  firstn (Z.to_nat 2)
         (skipn (Z.to_nat (total (map snd (firstn 1 [(4, 3); (0, 2)]))))
                (subsampled_states_indices [(4, 3); (0, 2)] [2; 0]))
  = range_from 0 (0 + 2).
Proof.
  refine (proj2 (proj2 (proj2 (proj2
            (recomputed_horizons_address_windows
               [("horizons", IntTensor [[0; 2]; [2; 2]; [4; 3]])] []
               (IntTensor [[0; 2]; [2; 2]; [4; 3]])
               [(0, 2); (2, 2); (4, 3)] [(4, 3); (0, 2)] [2; 0]
               eq_refl eq_refl eq_refl eq_refl _)))
            1%nat (0, 2) eq_refl)).
  repeat constructor; simpl; lia.
Defined.

Lemma subsample_others_names (has_states : bool) (items : TensorDict)
  (indices : list Z) :
  forall others,
    subsample_others has_states items indices = Ok others ->
    map fst others
    = filter (fun name => negb has_states || gathered_directly name)
             (map fst items).
Proof.
  induction items as [|[name x] rest IH]; simpl; intros others H.
  - inversion H; reflexivity.
  - unfold gathered_directly at 1.
    destruct (negb has_states || _).
    + destruct (gather x indices); simpl in H; [|discriminate].
      destruct (subsample_others has_states rest indices); simpl in H;
        [|discriminate].
      inversion H; subst; simpl; f_equal; apply IH; reflexivity.
    + apply IH; exact H.
Qed.

(** X13: the names handed to the wrapped optimizer.  Whenever the step
    reaches the delegation, the subsampled arguments are: for a batch with
    states and horizons, the entries at or below ['states'], then
    ['horizons'], then every other entry whose name neither starts with
    ['states'] nor is ['horizons'], in the order of the arguments (so an
    entry such as ['states_extra'] outside ['states'] is left out); for
    any other batch, every entry under its own name in the same order. *)
Theorem subsampled_argument_names
  (fraction : Float32.t) (random_uniform : Z -> Z -> list Z)
  (arguments subsampled : TensorDict) :
  subsample fraction random_uniform arguments = Ok subsampled ->
  map fst subsampled
  = if contains "states" arguments && contains "horizons" arguments
    then map fst (subdict "states" arguments)
           ++ ["horizons"]
           ++ filter gathered_directly (map fst arguments)
    else map fst arguments.
Proof.
  unfold subsample; intros H.
  destruct (getitem arguments "reward") as [reward|]; simpl in H;
    [|discriminate].
  destruct (contains "states" arguments && contains "horizons" arguments).
  - destruct (subsample_states _ _ _) as [special|] eqn:Hspecial;
      simpl in H; [|discriminate].
    destruct (subsample_others true arguments _) as [others|] eqn:Hothers;
      simpl in H; [|discriminate].
    inversion H; subst subsampled; clear H.
    destruct (subsample_states_entries _ _ _ _ Hspecial)
      as (ss & nh & -> & Hnames & _).
    rewrite !map_app, Hnames, (subsample_others_names _ _ _ _ Hothers).
    rewrite <- app_assoc; reflexivity.
  - simpl in H.
    destruct (subsample_others false arguments _) as [others|] eqn:Hothers;
      simpl in H; [|discriminate].
    inversion H; subst subsampled; clear H.
    rewrite (subsample_others_names _ _ _ _ Hothers); simpl.
    induction (map fst arguments) as [|n ns IH]; simpl; [reflexivity|].
    now rewrite IH.
Qed.

Lemma subsampled_argument_names_witness :
  map fst
    [("states/image", FloatTensor [[2]; [3]; [1]]%Q);
     ("horizons", IntTensor [[0; 2]; [2; 1]]);
     ("reward", FloatTensor [[20]; [30]]%Q)]
  = ["states/image"; "horizons"; "reward"].
Proof.
  apply (subsampled_argument_names Float32.one (fun n m => [1; 2])
           [("states/image", FloatTensor [[1]; [2]; [3]]%Q);
            ("horizons", IntTensor [[0; 1]; [1; 2]; [0; 1]]);
            ("states_extra", FloatTensor [[7]; [8]; [9]]%Q);
            ("reward", FloatTensor [[10]; [20]; [30]]%Q)]).
  reflexivity.
Defined.

Lemma gather_rows_out_of_range {A : Type} (rows : list A)
  (indices : list Z) (i : Z) :
  In i indices ->
  i < 0 \/ Z.of_nat (List.length rows) <= i ->
  gather_rows rows indices = Raise (InvalidArgumentError "gather").
Proof.
  intros Hin Hout; induction indices as [|j rest IH]; [destruct Hin|].
  simpl; destruct Hin as [-> | Hin].
  - destruct (Z.ltb_spec i 0); [reflexivity|].
    destruct (nth_error rows (Z.to_nat i)) eqn:Hnth; [|reflexivity].
    assert (Hlt : (Z.to_nat i < List.length rows)%nat).
    { apply nth_error_Some; congruence. }
    lia.
  - destruct (if j <? 0 then None else nth_error rows (Z.to_nat j));
      [|reflexivity].
    rewrite (IH Hin); reflexivity.
Qed.

Lemma gather_raises_gather (x : tensor) (indices : list Z) (e : error) :
  gather x indices = Raise e -> e = InvalidArgumentError "gather".
Proof.
  assert (Hrows : forall (A : Type) (rows : list A) e',
             gather_rows rows indices = Raise e' ->
             e' = InvalidArgumentError "gather").
  { intros A rows; induction indices as [|j rest IH]; simpl; intros e' H;
      [discriminate|].
    destruct (if j <? 0 then None else nth_error rows (Z.to_nat j)).
    - destruct (gather_rows rows rest) as [g|e'']; simpl in H;
        [discriminate|].
      inversion H; subst; now apply IH.
    - now inversion H. }
  destruct x as [rows|rows]; simpl; intros H;
    destruct (gather_rows rows indices) as [g|e'] eqn:Hg; simpl in H;
    try discriminate; inversion H; subst; eapply Hrows; eassumption.
Qed.

Lemma subsample_others_out_of_range (items : TensorDict) (indices : list Z)
  (name : string) (x : tensor) (i : Z) :
  In (name, x) items -> In i indices ->
  i < 0 \/ shape0 x <= i ->
  subsample_others false items indices
  = Raise (InvalidArgumentError "gather").
Proof.
  intros Hin Hi Hout; induction items as [|[n y] rest IH]; [destruct Hin|].
  simpl; destruct Hin as [Heq | Hin].
  - inversion Heq; subst n y; clear Heq.
    assert (Hx : gather x indices = Raise (InvalidArgumentError "gather")).
    { destruct x as [rows|rows]; simpl in *;
        rewrite (gather_rows_out_of_range rows indices i Hi Hout);
        reflexivity. }
    rewrite Hx; reflexivity.
  - destruct (gather y indices) as [g|e] eqn:Hy; simpl.
    + rewrite (IH Hin); reflexivity.
    + now rewrite (gather_raises_gather _ _ _ Hy).
Qed.

(** X14: an index beyond an argument fails the call.  For a batch without
    the states/horizons handling, when some sampled index lies outside the
    rows of some argument (an argument shorter than ['reward']), the call
    raises the gather error and the wrapped optimizer is not called. *)
Theorem short_argument_fails_before_delegation
  (fraction : Float32.t) (random_uniform : Z -> Z -> list Z)
  (deltas : Type) (optimizer_step : TensorDict -> result deltas)
  (arguments : TensorDict) (reward : tensor)
  (name : string) (x : tensor) (i : Z) :
  getitem arguments "reward" = Ok reward ->
  contains "states" arguments && contains "horizons" arguments = false ->
  In (name, x) arguments ->
  In i (sample_indices fraction random_uniform (shape0 reward)) ->
  i < 0 \/ shape0 x <= i ->
  step fraction random_uniform deltas optimizer_step arguments
  = Raise (InvalidArgumentError "gather").
Proof.
  intros Hreward Hplain Hin Hi Hout; unfold step, subsample.
  rewrite Hreward, Hplain; simpl.
  rewrite (subsample_others_out_of_range _ _ _ _ _ Hin Hi Hout).
  reflexivity.
Qed.

Lemma short_argument_fails_before_delegation_witness :
  step Float32.one (fun n m => [0; 2; 1]) Z (fun _ => Ok 0)
       [("reward", FloatTensor [[1]; [2]; [3]]%Q);
        ("action", IntTensor [[5]; [6]])]
  = Raise (InvalidArgumentError "gather").
Proof.
  apply (short_argument_fails_before_delegation Float32.one
           (fun n m => [0; 2; 1]) Z (fun _ => Ok 0)
           [("reward", FloatTensor [[1]; [2]; [3]]%Q);
            ("action", IntTensor [[5]; [6]])]
           (FloatTensor [[1]; [2]; [3]]%Q)
           "action" (IntTensor [[5]; [6]]) 2).
  - reflexivity.
  - reflexivity.
  - right; left; reflexivity.
  - right; left; reflexivity.
  - right; simpl; lia.
Defined.

Lemma gather_rows_segment {A : Type} (rows : list A) (m : nat) :
  forall k,
    (k + m <= List.length rows)%nat ->
    gather_rows rows (map Z.of_nat (seq k m))
    = Ok (firstn m (skipn k rows)).
Proof.
  induction m as [|m IH]; intros k Hk; simpl; [reflexivity|].
  destruct (Z.ltb_spec (Z.of_nat k) 0); [lia|].
  rewrite Nat2Z.id.
  destruct (nth_error rows k) as [row|] eqn:Hnth.
  - rewrite (IH (S k)) by lia; cbn [bind].
    destruct (nth_error_split rows k Hnth) as (pre & post & -> & <-).
    rewrite !skipn_app, skipn_all, Nat.sub_diag.
    rewrite skipn_all2 by lia.
    replace (S (List.length pre) - List.length pre)%nat with 1%nat by lia.
    reflexivity.
  - apply nth_error_None in Hnth; lia.
Qed.

Lemma gather_all_rows (x : tensor) :
  gather x (range (shape0 x)) = Ok x.
Proof.
  destruct x as [rows|rows]; simpl; unfold range; rewrite Nat2Z.id;
    rewrite gather_rows_segment by lia; simpl; now rewrite firstn_all.
Qed.

(** X15: sampling the whole batch in order changes nothing.  For a batch
    without the states/horizons handling in which every argument has the
    rows of ['reward'], when the indices drawn are
    [0, 1, ..., batch_size - 1], the subsampled arguments are the arguments
    themselves: gathering all rows in order is the identity.  With a
    fraction of [1.0] and a batch size below [2 ** 24] the step draws
    [batch_size] indices, so that draw is the draw of that many indices. *)
Theorem whole_batch_in_order_is_unchanged
  (fraction : Float32.t) (random_uniform : Z -> Z -> list Z)
  (arguments : TensorDict) (reward : tensor) :
  getitem arguments "reward" = Ok reward ->
  contains "states" arguments && contains "horizons" arguments = false ->
  Forall (fun entry => shape0 (snd entry) = shape0 reward) arguments ->
  (sample_indices fraction random_uniform (shape0 reward)
   = range (shape0 reward) ->
   subsample fraction random_uniform arguments = Ok arguments) /\
  (fraction = Float32.one ->
   1 <= shape0 reward < 2 ^ 24 ->
   random_uniform (shape0 reward) (shape0 reward) = range (shape0 reward) ->
   subsample fraction random_uniform arguments = Ok arguments).
Proof.
  intros Hreward Hplain Hall.
  assert (Hothers : subsample_others false arguments (range (shape0 reward))
                    = Ok arguments).
  { clear Hreward Hplain.
    induction Hall as [|[name x] rest Hx _ IH]; simpl; [reflexivity|].
    simpl in Hx; rewrite <- Hx, gather_all_rows; simpl.
    rewrite Hx, IH; reflexivity. }
  assert (Hdrawn : sample_indices fraction random_uniform (shape0 reward)
                   = range (shape0 reward) ->
                   subsample fraction random_uniform arguments
                   = Ok arguments).
  { intros Hdraw; unfold subsample.
    rewrite Hreward, Hplain; simpl.
    rewrite Hdraw, Hothers; reflexivity. }
  split; [exact Hdrawn|].
  intros -> Hb Hdraw; apply Hdrawn.
  unfold sample_indices; rewrite (num_samples_one _ Hb); exact Hdraw.
Qed.

Lemma whole_batch_in_order_is_unchanged_witness :
  subsample Float32.one (fun n m => range n)
    [("reward", FloatTensor [[1]; [2]; [3]]%Q);
     ("action", IntTensor [[5]; [6]; [7]])]
  = Ok [("reward", FloatTensor [[1]; [2]; [3]]%Q);
        ("action", IntTensor [[5]; [6]; [7]])].
Proof.
  refine (proj2 (whole_batch_in_order_is_unchanged Float32.one
                   (fun n m => range n)
                   [("reward", FloatTensor [[1]; [2]; [3]]%Q);
                    ("action", IntTensor [[5]; [6]; [7]])]
                   (FloatTensor [[1]; [2]; [3]]%Q) eq_refl eq_refl _)
                eq_refl _ eq_refl).
  - repeat constructor.
  - vm_compute; split; [discriminate | reflexivity].
Defined.

End SubsamplingStepFurther.

(** ** ParametrizedDistributions: the constructor and [states_value] *)

Section PolicyConstruction.

Import ParametrizedDistributions.

Local Open Scope string_scope.
Local Open Scope list_scope.
Local Open Scope Z_scope.

Lemma dict_get_set (d : list (string * pyobj)) (key : string) (v : pyobj)
  (k : string) :
  dict_get (dict_set d key v) k
  = if String.eqb key k then Some v else dict_get d k.
Proof.
  induction d as [|[k' v'] rest IH]; simpl.
  - reflexivity.
  - destruct (String.eqb_spec k' key) as [->|Hne]; simpl.
    + destruct (String.eqb key k); reflexivity.
    + rewrite IH.
      destruct (String.eqb_spec k' k) as [->|Hne'];
        destruct (String.eqb_spec key k) as [->|Hne'']; congruence.
Qed.

Lemma dict_get_absent {V : Type} (d : list (string * V)) (k : string) :
  ~ In k (map fst d) -> dict_get d k = None.
Proof.
  induction d as [|[k' v'] rest IH]; simpl; intros H; [reflexivity|].
  destruct (String.eqb_spec k' k) as [->|Hne]; [tauto|].
  apply IH; tauto.
Qed.

(** After [d.update(other)] a key has the value of [other] when [other] has
    the key, and its value in [d] otherwise. *)
Lemma dict_get_update (other : list (string * pyobj)) :
  NoDup (map fst other) ->
  forall d k,
    dict_get (dict_update d other) k
    = match dict_get other k with
      | Some v => Some v
      | None => dict_get d k
      end.
Proof.
  unfold dict_update; induction other as [|[k1 v1] rest IH]; simpl;
    intros Hnodup d k; [reflexivity|].
  inversion Hnodup as [|? ? Hk1 Hrest]; subst.
  rewrite (IH Hrest), dict_get_set.
  destruct (String.eqb_spec k1 k) as [->|Hne]; [|reflexivity].
  rewrite (dict_get_absent rest k Hk1); reflexivity.
Qed.

(** X16: layered arguments.  When the [distributions] argument has a dict
    for the type of an action and a dict for its name, the module resolved
    for the action is a dict in which every key of the name's dict has the
    name's value and every other key has the type's value: the per-name
    entry overrides the per-type entry key by key. *)
Theorem name_arguments_override_type_arguments
  (entries : list (string * module_spec)) (name : string)
  (spec : ActionSpec) (by_type by_name : list (string * pyobj)) :
  NoDup (map fst by_type) -> NoDup (map fst by_name) ->
  dict_get entries (type_name (action_type spec))
  = Some (ModuleArgs by_type) ->
  dict_get entries name = Some (ModuleArgs by_name) ->
  exists merged,
    resolve_module (Some entries) name spec
    = Done (Some (ModuleArgs merged)) /\
    forall k,
      dict_get merged k
      = match dict_get by_name k with
        | Some v => Some v
        | None => dict_get by_type k
        end.
Proof.
  intros Htype Hname Hget_type Hget_name.
  exists (dict_update (dict_update [] by_type) by_name); split.
  - unfold resolve_module; rewrite Hget_type, Hget_name; reflexivity.
  - intros k; rewrite (dict_get_update by_name Hname).
    destruct (dict_get by_name k); [reflexivity|].
    rewrite (dict_get_update by_type Htype).
    destruct (dict_get by_type k); reflexivity.
Qed.

Lemma name_arguments_override_type_arguments_witness :
  exists merged,
    resolve_module
      (Some [("float", ModuleArgs [("type", PyStr "gaussian");
                                   ("stddev_mode", PyStr "global")]);
             ("steer", ModuleArgs [("type", PyStr "beta")])])
      "steer"
      {| action_type := type_float; num_values := None;
         action_min_value := None |}
    = Done (Some (ModuleArgs merged)) /\
    forall k,
      dict_get merged k
      = match dict_get [("type", PyStr "beta")] k with
        | Some v => Some v
        | None =>
            dict_get [("type", PyStr "gaussian");
                      ("stddev_mode", PyStr "global")] k
        end.
Proof.
  apply (name_arguments_override_type_arguments
           [("float", ModuleArgs [("type", PyStr "gaussian");
                                  ("stddev_mode", PyStr "global")]);
            ("steer", ModuleArgs [("type", PyStr "beta")])]
           "steer"
           {| action_type := type_float; num_values := None;
              action_min_value := None |});
    try reflexivity; repeat constructor; simpl; intuition discriminate.
Defined.

(** X17: string entries.  A string entry for the name of an action always
    decides its module.  A string entry for its type decides the module
    when the name has no entry, and makes the constructor raise
    [AttributeError] when the name has a dict entry: the dict is merged
    with [module.update], which the string does not have. *)
Theorem string_entries_decide_or_fail
  (entries : list (string * module_spec)) (name : string)
  (spec : ActionSpec) (chosen : string) :
  (dict_get entries name = Some (ModuleName chosen) ->
   resolve_module (Some entries) name spec
   = Done (Some (ModuleName chosen))) /\
  (dict_get entries (type_name (action_type spec))
   = Some (ModuleName chosen) ->
   (dict_get entries name = None ->
    resolve_module (Some entries) name spec
    = Done (Some (ModuleName chosen))) /\
   (forall args,
      dict_get entries name = Some (ModuleArgs args) ->
      resolve_module (Some entries) name spec
      = Failed (AttributeError "update") /\
      forall actions before,
        Forall (fun action =>
                  exists modules,
                    add_distributions (Some entries) [action]
                    = Done modules) before ->
        (exists default_name, default_module spec = Done default_name) ->
        add_distributions (Some entries)
          (before ++ (name, spec) :: actions)
        = Failed (AttributeError "update"))).
Proof.
  split; [|intros Htype; split].
  - intros Hname; unfold resolve_module; rewrite Hname.
    destruct (dict_get entries (type_name (action_type spec)))
      as [[s|d]|]; reflexivity.
  - intros Hname; unfold resolve_module; rewrite Htype, Hname; reflexivity.
  - intros args Hname.
    assert (Hfail : resolve_module (Some entries) name spec
                    = Failed (AttributeError "update")).
    { unfold resolve_module; rewrite Htype, Hname; reflexivity. }
    split; [exact Hfail|].
    intros actions before Hbefore [default_name Hdefault].
    induction Hbefore as [|[n sp] rest [modules Hone] _ IH];
      cbn [app add_distributions].
    + rewrite Hdefault; cbn [and_then]; rewrite Hfail; reflexivity.
    + cbn [add_distributions] in Hone.
      destruct (default_module sp); cbn [and_then] in *; [|discriminate].
      destruct (resolve_module (Some entries) n sp); cbn [and_then] in *;
        [|discriminate].
      rewrite IH; reflexivity.
Qed.

Lemma string_entries_decide_or_fail_witness :
  resolve_module
    (Some [("int", ModuleName "categorical");
           ("move", ModuleArgs [("temperature_mode", PyStr "global")])])
    "move"
    {| action_type := type_int; num_values := Some 4;
       action_min_value := None |}
  = Failed (AttributeError "update").
Proof.
  refine (proj1 (proj2 (proj2 (string_entries_decide_or_fail
            [("int", ModuleName "categorical");
             ("move", ModuleArgs [("temperature_mode", PyStr "global")])]
            "move"
            {| action_type := type_int; num_values := Some 4;
               action_min_value := None |}
            "categorical") eq_refl)
          [("temperature_mode", PyStr "global")] eq_refl)).
Defined.

Lemma add_distributions_names
  (distributions : option (list (string * module_spec)))
  (actions : list (string * ActionSpec)) :
  forall modules,
    add_distributions distributions actions = Done modules ->
    Forall2 (fun action entry =>
               fst entry = fst action /\
               module_name (snd entry)
               = (fst action ++ "_distribution")%string /\
               default_module (snd action) = Done (default (snd entry)) /\
               action_spec (snd entry) = snd action)
            actions modules.
Proof.
  induction actions as [|[name spec] rest IH]; simpl; intros modules H.
  - inversion H; constructor.
  - destruct (default_module spec) as [dn|] eqn:Hd; simpl in H;
      [|discriminate].
    destruct (resolve_module distributions name spec); simpl in H;
      [|discriminate].
    destruct (add_distributions distributions rest); simpl in H;
      [|discriminate].
    inversion H; subst; constructor; [simpl; auto | apply IH; reflexivity].
Qed.

Lemma add_distributions_no_type_error
  (distributions : option (list (string * module_spec)))
  (actions : list (string * ActionSpec)) (a b c : string) :
  add_distributions distributions actions <> Failed (TensorforceError_type a b c).
Proof.
  induction actions as [|[name spec] rest IH]; simpl; [discriminate|].
  unfold default_module.
  destruct (action_type spec); simpl;
    try destruct (num_values spec); try destruct (action_min_value spec);
    simpl; try discriminate;
    (unfold resolve_module; destruct distributions as [entries|]; simpl;
     [ destruct (dict_get entries _) as [[s|d]|]; simpl;
       destruct (dict_get entries name) as [[s'|d']|]; simpl;
       try discriminate
     | ]);
    destruct (add_distributions _ rest) as [ms|e] eqn:Hrest; simpl;
    try discriminate; intros H; inversion H; subst; apply IH; reflexivity.
Qed.

(** X18: the constructor.  Construction raises the type error exactly when
    the output of the network is not of type float, whatever the other
    arguments are.  When it succeeds there is exactly one distribution per
    action, under the name of the action and in the order of the actions,
    added as ['<name>_distribution'] with the default that the action's
    type selects. *)
Theorem constructor_checks_output_and_covers_actions
  (output_type : spec_type)
  (distributions : option (list (string * module_spec)))
  (infer : state_value_mode) (actions : list (string * ActionSpec)) :
  (output_type <> type_float <->
   __init__ output_type distributions infer actions
   = Failed (TensorforceError_type "ParametrizedDistributions"
               "network output" (type_name output_type))) /\
  (forall self,
     __init__ output_type distributions infer actions = Done self ->
     map fst (policy_distributions self) = map fst actions /\
     Forall2 (fun action entry =>
                fst entry = fst action /\
                module_name (snd entry)
                = (fst action ++ "_distribution")%string /\
                default_module (snd action) = Done (default (snd entry)) /\
                action_spec (snd entry) = snd action)
             actions (policy_distributions self)).
Proof.
  split.
  - split.
    + intros Hne; destruct output_type; try reflexivity; congruence.
    + intros H Heq; subst output_type; simpl in H.
      destruct (add_distributions distributions actions) as [ms|e] eqn:Hadd;
        simpl in H; [discriminate|].
      inversion H; subst.
      exact (add_distributions_no_type_error _ _ _ _ _ Hadd).
  - intros self H; destruct output_type; simpl in H; try discriminate.
    destruct (add_distributions distributions actions) as [ms|e] eqn:Hadd;
      simpl in H; [|discriminate].
    inversion H; subst self; clear H; cbn [policy_distributions].
    pose proof (add_distributions_names _ _ _ Hadd) as Hall.
    split; [|exact Hall].
    clear Hadd; induction Hall as [|a m az mz [Hfst _] _ IH]; simpl;
      [reflexivity | now rewrite Hfst, IH].
Qed.

Lemma constructor_checks_output_and_covers_actions_witness :
  __init__ type_int None infer_False
    [("move", {| action_type := type_int; num_values := Some 4;
                 action_min_value := None |})]
  = Failed (TensorforceError_type "ParametrizedDistributions"
              "network output" "int").
Proof.
  apply (constructor_checks_output_and_covers_actions type_int None
           infer_False
           [("move", {| action_type := type_int; num_values := Some 4;
                        action_min_value := None |})]).
  discriminate.
Defined.

Section StatesValueProperties.

Variables inputs embedding values : Type.
Variable network_apply : inputs -> embedding.
Variable value_apply : embedding -> values.
Variable super_states_value : inputs -> bool -> bool -> outcome values.

(** X19: [states_value] on a constructed policy.  Without state-value
    inference the call raises the invalid-argument error exactly when
    [reduced] is false or [return_per_action] is true, and otherwise
    returns the value head applied to the embedding of the network: the
    head it reads is the one the constructor created, so the attribute is
    never missing.  With inference the call is the one of the base class. *)
Theorem states_value_of_constructed_policy
  (output_type : spec_type)
  (distributions : option (list (string * module_spec)))
  (infer : state_value_mode) (actions : list (string * ActionSpec))
  (self : policy) (x : inputs) (reduced return_per_action : bool) :
  __init__ output_type distributions infer actions = Done self ->
  let call :=
    states_value network_apply value_apply super_states_value self x
                 reduced return_per_action in
  (infer = infer_False ->
   (reduced = false \/ return_per_action = true <->
    call = Failed (TensorforceError_invalid "policy.states_value"
                     "reduced")) /\
   (reduced = true -> return_per_action = false ->
    call = Done (value_apply (network_apply x)))) /\
  (infer <> infer_False ->
   call = super_states_value x reduced return_per_action) /\
  (forall attribute,
     infer = infer_False -> call <> Failed (AttributeError attribute)).
Proof.
  intros H; destruct output_type; simpl in H; try discriminate.
  destruct (add_distributions distributions actions) as [ms|e];
    simpl in H; [|discriminate].
  inversion H; subst self; clear H; cbv zeta; unfold states_value;
    cbn [infer_state_value value].
  split; [|split].
  - intros ->; split.
    + destruct reduced, return_per_action; simpl; split;
        intros H; try reflexivity; try discriminate; auto;
        destruct H; discriminate.
    + intros -> ->; reflexivity.
  - intros Hne; destruct infer; [congruence | reflexivity | reflexivity].
  - intros attribute ->; destruct reduced, return_per_action; simpl;
      discriminate.
Qed.

End StatesValueProperties.

Lemma states_value_of_constructed_policy_witness :
  let self :=
    {| policy_distributions :=
         [("move",
           {| module_name := "move_distribution";
              module := None;
              default := "categorical";
              action_spec :=
                {| action_type := type_int; num_values := Some 4;
                   action_min_value := None |} |})];
       infer_state_value := infer_False;
       value := Some "states_value" |} in
  states_value (fun s : Z => 2 * s) (fun e : Z => e + 1)
               (fun _ _ _ => Failed AssertionError) self 5 true false
  = Done 11.
Proof.
  cbv zeta.
  refine (proj2 (proj1 (states_value_of_constructed_policy
            Z Z Z (fun s : Z => 2 * s) (fun e : Z => e + 1)
            (fun _ _ _ => Failed AssertionError)
            type_float None infer_False
            [("move", {| action_type := type_int; num_values := Some 4;
                         action_min_value := None |})]
            _ 5 true false eq_refl) eq_refl) eq_refl eq_refl).
Defined.

End PolicyConstruction.
